(** * FleetLink backend: booking / availability engine

    A shallow embedding of the booking engine of the FleetLink backend
    (src/utils/timeUtils.js, src/models/Booking.js,
    src/services/bookingService.js, src/services/vehicleService.js) and
    the properties of it that the specification states.

    Conventions of the embedding:
    - a JavaScript string is a [string]: a sequence of code units below 256;
    - a [Date] is its time value, an integer number of milliseconds ([Z]);
    - a JavaScript number that holds a duration or a cost is an exact
      rational ([Q]); [NaN] is kept apart where the code can produce it;
    - a MongoDB collection is a finite map from [_id] to document;
    - [throw] is a result in [Err]; the clock ([new Date()]) is an argument. *)

From Stdlib Require Import ZArith QArith Qround Lia Bool Ascii String.
From stdpp Require Import gmap strings list fin_maps sorting.

Local Open Scope Z_scope.

(** ** Results of fallible code *)

Inductive result (E A : Type) : Type :=
| Ok (a : A)
| Err (e : E).
Arguments Ok {E A} a.
Arguments Err {E A} e.

Definition is_ok {E A} (r : result E A) : bool :=
  match r with Ok _ => true | Err _ => false end.

Definition is_err {E A} (r : result E A) : bool := negb (is_ok r).

Definition bind {E A B} (r : result E A) (k : A -> result E B) : result E B :=
  match r with
  | Ok a => k a
  | Err e => Err e
  end.

Definition map_err {E F A} (f : E -> F) (r : result E A) : result F A :=
  match r with
  | Ok a => Ok a
  | Err e => Err (f e)
  end.

Notation "'try!' x ':=' c1 'in' c2" := (bind c1 (fun x => c2))
  (at level 10, x name, c1 at level 100, c2 at level 200).

(** ** The JavaScript primitives the engine uses *)

Module JS.

(** [WhiteSpace] and [LineTerminator] code units below 256:
    TAB, LF, VT, FF, CR, SP and NBSP. *)
Definition is_whitespace (c : ascii) : bool :=
  let n := nat_of_ascii c in
  ((9 <=? n) && (n <=? 13))%nat || (n =? 32)%nat || (n =? 160)%nat.

Definition is_digit (c : ascii) : bool :=
  let n := nat_of_ascii c in ((48 <=? n) && (n <=? 57))%nat.

Definition digit_value (c : ascii) : Z := Z.of_nat (nat_of_ascii c) - 48.

(** [String.prototype.trimStart]. *)
Fixpoint trimStart (s : string) : string :=
  match s with
  | String c s' => if is_whitespace c then trimStart s' else s
  | EmptyString => EmptyString
  end.

(** The longest prefix of decimal digits, as digit values. *)
Fixpoint digits_prefix (s : string) : list Z :=
  match s with
  | String c s' => if is_digit c then digit_value c :: digits_prefix s' else []
  | EmptyString => []
  end.

Definition mathInt (ds : list Z) : Z :=
  fold_left (fun acc d => 10 * acc + d) ds 0.

(** [parseInt(s, 10)]: leading white space is skipped, one sign is
    accepted, the longest digit prefix is read and what follows it is
    ignored; [None] is [NaN]. *)
Definition parseInt (s : string) : option Z :=
  let S := trimStart s in
  let '(sign, S') :=
    match S with
    | String "-"%char r => (-1, r)
    | String "+"%char r => (1, r)
    | _ => (1, S)
    end in
  match digits_prefix S' with
  | [] => None
  | ds => Some (sign * mathInt ds)
  end.

(** [String.prototype.trim]. *)
Fixpoint rev_string (s acc : string) : string :=
  match s with
  | String c s' => rev_string s' (String c acc)
  | EmptyString => acc
  end.

Definition trim (s : string) : string :=
  rev_string (trimStart (rev_string (trimStart s) EmptyString)) EmptyString.

(** [Math.max], [Math.min] and [Math.round] on rationals. [Math.round]
    rounds halves up. *)
Definition Math_max (a b : Q) : Q := if Qle_bool a b then b else a.
Definition Math_min (a b : Q) : Q := if Qle_bool a b then a else b.
Definition Math_round (x : Q) : Z := Qfloor (x + (1 # 2)).

(** Truthiness of a number: [0] is falsy. *)
Definition truthy (x : Q) : bool := negb (Qeq_bool x 0).

(** [a || b] where [a] is an optional number. *)
Definition or_default (a : option Q) (b : Q) : Q :=
  match a with
  | Some x => if truthy x then x else b
  | None => b
  end.

(** A number, as far as the enhanced estimate needs it. *)
Inductive number : Type :=
| Num (q : Q)
| NaN.

(** Conversion of a time value to an integral number of milliseconds,
    as [new Date(t)] does it: truncation towards zero. *)
Definition toIntegerMs (x : Q) : Z := Z.quot (Qnum x) (Z.pos (Qden x)).

End JS.

(** ** src/utils/timeUtils.js *)

Module TimeUtils.
Import JS.

Inductive Error : Type :=
| InvalidPincodeFormat      (* 'Invalid pincode format' *)
| PincodeMustBe6Digits      (* 'Pincode must be 6 digits' *)
| InvalidStartTime          (* 'Invalid start time' *)
| DurationMustBePositive.   (* 'Duration must be a positive number' *)

Definition out_of_range (n : Z) : bool := (n <? 100000) || (n >? 999999).

Definition calculateEstimatedDuration (fromPincode toPincode : string)
  : result Error Q :=
  match parseInt fromPincode, parseInt toPincode with
  | Some from, Some to =>
      if out_of_range from || out_of_range to then Err PincodeMustBe6Digits
      else
        let duration := Z.rem (Z.abs (to - from)) 24 in
        Ok (Math_max (inject_Z duration) (1 # 2))
  | _, _ => Err InvalidPincodeFormat
  end.

(** [startTime] is a valid [Date] here; the duration is a number. *)
Definition calculateEndTime (startTime : Z) (durationHours : Q)
  : result Error Z :=
  if Qle_bool durationHours 0 then Err DurationMustBePositive
  else
    let durationMs := (durationHours * 60 * 60 * 1000)%Q in
    Ok (toIntegerMs (inject_Z startTime + durationMs)).

Record Options : Type := mkOptions {
  vehicleType : option string;
  trafficFactor : option Q;
  includeLoadingTime : bool
}.

(** Names every object inherits from [Object.prototype]: looking one of
    them up in the object literal [vehicleFactors] finds a value that is
    truthy and not a number. *)
Definition inherited_names : list string :=
  ["constructor"; "toString"; "toLocaleString"; "valueOf";
   "hasOwnProperty"; "isPrototypeOf"; "propertyIsEnumerable";
   "__proto__"; "__defineGetter__"; "__defineSetter__";
   "__lookupGetter__"; "__lookupSetter__"]%string.

(** [vehicleFactors[options.vehicleType] || 1.0]. *)
Definition vehicleFactor (ty : option string) : number :=
  match ty with
  | None => Num 1
  | Some t =>
      if String.eqb t "motorcycle" then Num (8 # 10)
      else if String.eqb t "pickup" then Num 1
      else if String.eqb t "van" then Num (11 # 10)
      else if String.eqb t "truck" then Num (13 # 10)
      else if String.eqb t "trailer" then Num (15 # 10)
      else if String.eqb t "other" then Num 1
      else if existsb (String.eqb t) inherited_names then NaN
      else Num 1
  end.

Definition round2 (x : Q) : Q := (inject_Z (Math_round (x * 100)) / 100)%Q.

Definition calculateEnhancedDuration (fromPincode toPincode : string)
  (options : Options) : result Error number :=
  try! baseDuration := calculateEstimatedDuration fromPincode toPincode in
  match vehicleFactor (vehicleType options) with
  | NaN => Ok NaN
  | Num vf =>
      let enhanced1 := (baseDuration * vf)%Q in
      let traffic := or_default (trafficFactor options) (12 # 10) in
      let enhanced2 :=
        if Qle_bool 1 traffic && Qle_bool traffic 3
        then (enhanced1 * traffic)%Q else enhanced1 in
      let enhanced3 :=
        if includeLoadingTime options then
          let loadingTime := Math_min (baseDuration * (1 # 10)) 2 in
          (enhanced2 + Math_max loadingTime (1 # 2))%Q
        else enhanced2 in
      Ok (Num (round2 enhanced3))
  end.

End TimeUtils.

(** ** src/models/Vehicle.js and src/models/Booking.js *)

Module Model.

Abbreviation ObjectId := positive.

Inductive Status : Type :=
| pending
| confirmed
| in_progress
| completed
| cancelled.

#[global] Instance Status_eq_dec : EqDecision Status.
Proof. solve_decision. Defined.

Definition status_name (s : Status) : string :=
  match s with
  | pending => "pending"
  | confirmed => "confirmed"
  | in_progress => "in_progress"
  | completed => "completed"
  | cancelled => "cancelled"
  end.

Definition all_statuses : list Status :=
  [pending; confirmed; in_progress; completed; cancelled].

(** The schema's [enum]: the status a string names, if any. *)
Definition status_of_string (s : string) : option Status :=
  List.find (fun st => String.eqb (status_name st) s) all_statuses.

(** A vehicle document; [createdAt] is the schema's timestamp. *)
Record Vehicle : Type := mkVehicle {
  name : string;
  capacityKg : Z;
  tyres : Z;
  isActive : bool;
  vehicleType : string;
  createdAt : Z
}.

(** A booking document (the [createdAt]/[updatedAt] timestamps, which
    no operation below reads, are left out). *)
Record Booking : Type := mkBooking {
  vehicleId : ObjectId;
  customerId : string;
  fromPincode : string;
  toPincode : string;
  startTime : Z;
  endTime : Z;
  estimatedRideDurationHours : Q;
  status : Status;
  totalDistance : option Q;
  estimatedCost : option Q;
  actualStartTime : option Z;
  actualEndTime : option Z;
  notes : option string
}.

(** The two collections. *)
Record Store : Type := mkStore {
  vehicles : gmap positive Vehicle;
  bookings : gmap positive Booking
}.

(** [bookingSchema.methods.overlapsWithTimeRange] *)
Definition overlapsWithTimeRange (this : Booking) (start_ end_ : Z) : bool :=
  negb (bool_decide (status this = cancelled))
  && (startTime this <? end_) && (endTime this >? start_).

(** [bookingSchema.methods.canBeCancelled]; [now] is [new Date()]. *)
Definition canBeCancelled (now : Z) (this : Booking) : bool :=
  let oneHourFromNow := now + 60 * 60 * 1000 in
  (bool_decide (status this = pending) || bool_decide (status this = confirmed))
  && (startTime this >? oneHourFromNow).

(** The query document of [bookingSchema.statics.findOverlappingBookings]:
    same vehicle, status [$nin ['cancelled', 'completed']],
    [startTime < endTime] of the window and [endTime > startTime] of it,
    and [_id $ne excludeBookingId] when one is given. *)
Definition overlap_query (vid : ObjectId) (start_ end_ : Z)
  (excludeBookingId : option ObjectId) (kb : ObjectId * Booking) : bool :=
  let '(k, b) := kb in
  bool_decide (vehicleId b = vid)
  && negb (bool_decide (status b = cancelled) || bool_decide (status b = completed))
  && (startTime b <? end_) && (endTime b >? start_)
  && match excludeBookingId with
     | Some x => negb (bool_decide (k = x))
     | None => true
     end.

Definition findOverlappingBookings (coll : gmap positive Booking)
  (vid : ObjectId) (start_ end_ : Z) (excludeBookingId : option ObjectId)
  : list (ObjectId * Booking) :=
  map_to_list
    (filter (fun kb => overlap_query vid start_ end_ excludeBookingId kb = true) coll).

End Model.

(** ** src/middleware/errorHandler.js: the errors the services throw *)

Module Errors.
Import Model.

(** What a [catch] block found that was not an [AppError]. *)
Inductive Cause : Type :=
| TimeUtilsError (e : TimeUtils.Error)   (* thrown by timeUtils *)
| SchemaValidation                       (* a schema validator rejected the document *)
| HookVehicleNotFound                    (* pre-save: 'Vehicle not found' *)
| HookVehicleInactive                    (* pre-save: 'Vehicle is not active' *)
| HookSlotTaken                          (* pre-save: 'Vehicle is not available for the selected time slot' *)
| DuplicateKey                           (* the unique index on [_id] *)
| NullResult.                            (* a property of [null] was read *)

(** One constructor for each [new AppError(...)] of the services. *)
Inductive AppError : Type :=
| VehicleNotFound          (* 'Vehicle not found', 404, 'NotFoundError' *)
| VehicleInactive          (* 'Vehicle is not active and cannot be booked', 400, 'ValidationError' *)
| BookingConflict          (* 'Vehicle is not available for the selected time slot. ...', 409, 'ConflictError' *)
| BookingNotFound          (* 'Booking not found', 404, 'NotFoundError' *)
| InvalidStatusTransition (current : Status) (requested : option string)
                           (* 'Cannot change booking status from ... to ...', 400, 'ValidationError' *)
| NotCancellable           (* 'Booking cannot be cancelled. ...', 400, 'ValidationError' *)
| Failed (c : Cause).      (* 'Failed to ...: ' + message, 500, 'ServerError' *)

Definition statusCode (e : AppError) : Z :=
  match e with
  | VehicleNotFound | BookingNotFound => 404
  | VehicleInactive | InvalidStatusTransition _ _ | NotCancellable => 400
  | BookingConflict => 409
  | Failed _ => 500
  end.

Definition type (e : AppError) : string :=
  match e with
  | VehicleNotFound | BookingNotFound => "NotFoundError"
  | VehicleInactive | InvalidStatusTransition _ _ | NotCancellable => "ValidationError"
  | BookingConflict => "ConflictError"
  | Failed _ => "ServerError"
  end.

End Errors.

(** ** src/services/bookingService.js *)

Module BookingService.
Import JS Model Errors.

(** The [bookingData] argument of [createBooking]. *)
Record BookingData : Type := mkBookingData {
  d_vehicleId : ObjectId;
  d_customerId : string;
  d_fromPincode : string;
  d_toPincode : string;
  d_startTime : Z;
  d_endTime : option Z;
  d_estimatedRideDurationHours : option Q;
  d_status : option string;
  d_totalDistance : option Q;
  d_estimatedCost : option Q;
  d_notes : option string
}.

(** The booking with the vehicle fields [populate] selects. *)
Record Populated : Type := mkPopulated {
  p_id : ObjectId;
  p_doc : Booking;
  p_vehicle : option Vehicle
}.

(** *** Schema validation, run by [save] before the pre-save hooks *)

(** [/^\d{6}$/] *)
Definition six_digits (s : string) : bool :=
  (String.length s =? 6)%nat && forallb is_digit (list_ascii_of_string s).

Definition nonneg_opt (x : option Q) : bool :=
  match x with Some q => Qle_bool 0 q | None => true end.

Definition notes_ok (n : option string) : bool :=
  match n with Some s => (String.length s <=? 1000)%nat | None => true end.

Definition schema_valid (now : Z) (b : Booking) : bool :=
  let buffer := 5 * 60 * 1000 in
  (1 <=? String.length (customerId b))%nat
  && (String.length (customerId b) <=? 100)%nat
  && six_digits (fromPincode b) && six_digits (toPincode b)
  && (startTime b >=? now - buffer)
  && (endTime b >? startTime b)
  && Qle_bool (1 # 10) (estimatedRideDurationHours b)
  && Qle_bool (estimatedRideDurationHours b) 168
  && nonneg_opt (totalDistance b) && nonneg_opt (estimatedCost b)
  && notes_ok (notes b).

(** [s.toString().padStart(6, '0')] of the first pre-save hook. *)
Fixpoint zeros (n : nat) (s : string) : string :=
  match n with O => s | S n' => String "0"%char (zeros n' s) end.

Definition padStart6 (s : string) : string :=
  match s with
  | EmptyString => s                        (* falsy: the hook skips it *)
  | _ => zeros (6 - String.length s) s
  end.

(** [new Booking({...bookingData, endTime, estimatedRideDurationHours,
    status: 'confirmed'})]: the schema's [trim] setters are applied. *)
Definition newBooking (data : BookingData) (finalEndTime : Z) (finalDuration : Q)
  : Booking :=
  {| vehicleId := d_vehicleId data;
     customerId := trim (d_customerId data);
     fromPincode := trim (d_fromPincode data);
     toPincode := trim (d_toPincode data);
     startTime := d_startTime data;
     endTime := finalEndTime;
     estimatedRideDurationHours := finalDuration;
     status := confirmed;
     totalDistance := d_totalDistance data;
     estimatedCost := d_estimatedCost data;
     actualStartTime := None;
     actualEndTime := None;
     notes := trim <$> d_notes data |}.

(** The first pre-save hook. The duration of a document that passed
    validation is at least 0.1, so the hook does not recompute it. *)
Definition normalize (b : Booking) : Booking :=
  {| vehicleId := vehicleId b;
     customerId := customerId b;
     fromPincode := padStart6 (fromPincode b);
     toPincode := padStart6 (toPincode b);
     startTime := startTime b;
     endTime := endTime b;
     estimatedRideDurationHours := estimatedRideDurationHours b;
     status := status b;
     totalDistance := totalDistance b;
     estimatedCost := estimatedCost b;
     actualStartTime := actualStartTime b;
     actualEndTime := actualEndTime b;
     notes := notes b |}.

(** *** [createBooking], one definition for each access to the store *)

(** [Vehicle.findById] and the two guards that follow it. *)
Definition loadVehicle (st : Store) (data : BookingData) : result AppError Vehicle :=
  match vehicles st !! d_vehicleId data with
  | None => Err VehicleNotFound
  | Some vehicle => if isActive vehicle then Ok vehicle else Err VehicleInactive
  end.

(** [estimatedRideDurationHours || calculateEstimatedDuration(...)] and
    [endTime || calculateEndTime(...)]; what timeUtils throws reaches the
    [catch] of [createBooking]. *)
Definition resolveWindow (data : BookingData) : result AppError (Q * Z) :=
  let estimate :=
    map_err (fun e => Failed (TimeUtilsError e))
      (TimeUtils.calculateEstimatedDuration (d_fromPincode data) (d_toPincode data)) in
  try! finalDuration :=
    match d_estimatedRideDurationHours data with
    | Some q => if truthy q then Ok q else estimate
    | None => estimate
    end in
  try! finalEndTime :=
    match d_endTime data with
    | Some e => Ok e
    | None => map_err (fun e => Failed (TimeUtilsError e))
                (TimeUtils.calculateEndTime (d_startTime data) finalDuration)
    end in
  Ok (finalDuration, finalEndTime).

(** [Booking.findOverlappingBookings] and [overlappingBookings.length > 0]. *)
Definition checkOverlap (st : Store) (data : BookingData) (finalEndTime : Z)
  : result AppError unit :=
  match findOverlappingBookings (bookings st) (d_vehicleId data)
          (d_startTime data) finalEndTime None with
  | [] => Ok tt
  | _ :: _ => Err BookingConflict
  end.

(** [booking.save()]: validation and the first hook, *)
Definition saveValidate (now : Z) (doc : Booking) : result AppError Booking :=
  if schema_valid now doc then Ok (normalize doc) else Err (Failed SchemaValidation).

(** the second hook's [Vehicle.findById], *)
Definition saveVehicle (st : Store) (doc : Booking) : result AppError unit :=
  if bool_decide (status doc = cancelled) then Ok tt
  else
    match vehicles st !! vehicleId doc with
    | None => Err (Failed HookVehicleNotFound)
    | Some vehicle =>
        if isActive vehicle then Ok tt else Err (Failed HookVehicleInactive)
    end.

(** its [findOverlappingBookings] (the document is new), *)
Definition saveOverlap (st : Store) (id : ObjectId) (doc : Booking)
  : result AppError unit :=
  if bool_decide (status doc = cancelled) then Ok tt
  else
    match findOverlappingBookings (bookings st) (vehicleId doc)
            (startTime doc) (endTime doc) (Some id) with
    | [] => Ok tt
    | _ :: _ => Err (Failed HookSlotTaken)
    end.

(** and the insert. *)
Definition insertDoc (st : Store) (id : ObjectId) (doc : Booking)
  : result AppError Store :=
  match bookings st !! id with
  | Some _ => Err (Failed DuplicateKey)
  | None => Ok {| vehicles := vehicles st; bookings := <[id := doc]> (bookings st) |}
  end.

(** [Booking.findById(id).populate('vehicleId', ...).lean()] *)
Definition readBack (st : Store) (id : ObjectId) : option Populated :=
  (fun b => mkPopulated id b (vehicles st !! vehicleId b)) <$> bookings st !! id.

(** [createBooking], run without interruption. [now] is the clock and
    [newId] the [_id] that [new Booking] draws. The store that comes
    back is the store after the call. *)
Definition createBooking (now : Z) (newId : ObjectId) (st : Store)
  (data : BookingData) : Store * result AppError (option Populated) :=
  let saved :=
    try! vehicle := loadVehicle st data in
    try! window := resolveWindow data in
    try! free := checkOverlap st data (snd window) in
    try! doc := saveValidate now (newBooking data (snd window) (fst window)) in
    try! ok1 := saveVehicle st doc in
    try! ok2 := saveOverlap st newId doc in
    insertDoc st newId doc in
  match saved with
  | Ok st' => (st', Ok (readBack st' newId))
  | Err e => (st, Err e)
  end.

(** *** [createBooking] as the event loop runs it

    Every [await] hands control back to the event loop, so calls in
    flight interleave between their accesses to the store. A call is
    at one of these points; [step] runs it up to its next [await]. *)

Inductive Phase : Type :=
| AtLoadVehicle                                   (* await Vehicle.findById *)
| AtCheckOverlap (finalDuration : Q) (finalEndTime : Z)
                                                  (* await Booking.findOverlappingBookings *)
| AtSaveVehicle (doc : Booking)                   (* save: await Vehicle.findById *)
| AtSaveOverlap (doc : Booking)                   (* save: await findOverlappingBookings *)
| AtInsert (doc : Booking)                        (* save: the insert *)
| AtReadBack                                      (* await Booking.findById(...).populate *)
| Done (r : result AppError (option Populated)).

Record Call : Type := mkCall {
  c_newId : ObjectId;
  c_data : BookingData;
  c_phase : Phase
}.

Definition start (newId : ObjectId) (data : BookingData) : Call :=
  mkCall newId data AtLoadVehicle.

Definition goto (c : Call) (r : result AppError Phase) : Call :=
  mkCall (c_newId c) (c_data c)
    match r with
    | Ok ph => ph
    | Err e => Done (Err e)
    end.

Definition step (now : Z) (st : Store) (c : Call) : Store * Call :=
  let data := c_data c in
  match c_phase c with
  | AtLoadVehicle =>
      (st, goto c (try! vehicle := loadVehicle st data in
                   try! window := resolveWindow data in
                   Ok (AtCheckOverlap (fst window) (snd window))))
  | AtCheckOverlap finalDuration finalEndTime =>
      (st, goto c (try! free := checkOverlap st data finalEndTime in
                   try! doc := saveValidate now (newBooking data finalEndTime finalDuration) in
                   Ok (AtSaveVehicle doc)))
  | AtSaveVehicle doc =>
      (st, goto c (try! ok1 := saveVehicle st doc in Ok (AtSaveOverlap doc)))
  | AtSaveOverlap doc =>
      (st, goto c (try! ok2 := saveOverlap st (c_newId c) doc in Ok (AtInsert doc)))
  | AtInsert doc =>
      match insertDoc st (c_newId c) doc with
      | Ok st' => (st', goto c (Ok AtReadBack))
      | Err e => (st, goto c (Err e))
      end
  | AtReadBack => (st, goto c (Ok (Done (Ok (readBack st (c_newId c))))))
  | Done r => (st, c)
  end.

(** The calls in flight and the store they share; a schedule names, one
    after the other, the call that runs next. *)
Definition Config : Type := Store * list Call.

Definition step_call (now : Z) (i : nat) (cfg : Config) : Config :=
  match cfg.2 !! i with
  | Some c => let '(st', c') := step now cfg.1 c in (st', <[i := c']> cfg.2)
  | None => cfg
  end.

Definition run (now : Z) (schedule : list nat) (cfg : Config) : Config :=
  fold_left (fun cfg i => step_call now i cfg) schedule cfg.

Definition outcome (c : Call) : option (result AppError (option Populated)) :=
  match c_phase c with
  | Done r => Some r
  | _ => None
  end.

Definition succeeded (c : Call) : bool :=
  match c_phase c with
  | Done (Ok _) => true
  | _ => false
  end.

(** *** [updateBookingStatus] and [cancelBooking] *)

Record UpdateData : Type := mkUpdateData {
  u_status : option string;
  u_notes : option string
}.

Definition validTransitions (s : Status) : list string :=
  match s with
  | pending => ["confirmed"; "cancelled"]
  | confirmed => ["in_progress"; "cancelled"]
  | in_progress => ["completed"; "cancelled"]
  | completed => []
  | cancelled => []
  end%string.

(** [allowedStatuses.includes(status)]; [None] is [undefined]. *)
Definition includes (l : list string) (x : option string) : bool :=
  match x with
  | Some s => existsb (String.eqb s) l
  | None => false
  end.

Definition is_string (x : option string) (s : string) : bool :=
  match x with
  | Some t => String.eqb t s
  | None => false
  end.

(** The document after [findByIdAndUpdate(bookingId, updateFields)]:
    [status] always, [notes] when the caller's are truthy,
    [actualStartTime] and [actualEndTime] when they are stamped. *)
Definition applyUpdate (now : Z) (cur : Booking) (newStatus : Status)
  (newNotes : option string) : Booking :=
  {| vehicleId := vehicleId cur;
     customerId := customerId cur;
     fromPincode := fromPincode cur;
     toPincode := toPincode cur;
     startTime := startTime cur;
     endTime := endTime cur;
     estimatedRideDurationHours := estimatedRideDurationHours cur;
     status := newStatus;
     totalDistance := totalDistance cur;
     estimatedCost := estimatedCost cur;
     actualStartTime :=
       match actualStartTime cur with
       | None => if bool_decide (newStatus = in_progress) then Some now else None
       | Some t => Some t
       end;
     actualEndTime :=
       match actualEndTime cur with
       | None => if bool_decide (newStatus = completed) then Some now else None
       | Some t => Some t
       end;
     notes :=
       match newNotes with
       | Some n => Some n
       | None => notes cur
       end |}.

Definition updateBookingStatus (now : Z) (st : Store) (bookingId : ObjectId)
  (updateData : UpdateData) : Store * result AppError Populated :=
  match bookings st !! bookingId with
  | None => (st, Err BookingNotFound)
  | Some currentBooking =>
      let allowedStatuses := validTransitions (status currentBooking) in
      if negb (includes allowedStatuses (u_status updateData)) then
        (st, Err (InvalidStatusTransition (status currentBooking) (u_status updateData)))
      else if is_string (u_status updateData) "cancelled"
              && negb (canBeCancelled now currentBooking) then
        (st, Err NotCancellable)
      else
        (* [if (notes)]: the empty string is falsy; [trim] is the schema's setter *)
        let newNotes :=
          match u_notes updateData with
          | Some EmptyString | None => None
          | Some n => Some (trim n)
          end in
        (* the update validators: the [enum] of status, [maxlength] of notes *)
        match u_status updateData ≫= status_of_string with
        | Some newStatus =>
            if notes_ok newNotes then
              let updated := applyUpdate now currentBooking newStatus newNotes in
              ({| vehicles := vehicles st;
                  bookings := <[bookingId := updated]> (bookings st) |},
               Ok (mkPopulated bookingId updated (vehicles st !! vehicleId updated)))
            else (st, Err (Failed SchemaValidation))
        | None => (st, Err (Failed SchemaValidation))
        end
  end.

(** [cancelBooking]: it reads the clock at [now1] for its own
    [canBeCancelled] and, inside [updateBookingStatus], again at [now2]. *)
Definition cancelBooking (now1 now2 : Z) (st : Store) (bookingId : ObjectId)
  (reason : option string) : Store * result AppError Populated :=
  let reason := default "Cancelled by user"%string reason in
  match bookings st !! bookingId with
  | None => (st, Err BookingNotFound)
  | Some booking =>
      if negb (canBeCancelled now1 booking) then (st, Err NotCancellable)
      else updateBookingStatus now2 st bookingId
             {| u_status := Some "cancelled"%string; u_notes := Some reason |}
  end.

End BookingService.

(** ** src/services/vehicleService.js *)

Module VehicleService.
Import JS Model Errors.

Record SearchParams : Type := mkSearchParams {
  capacityRequired : Z;
  s_fromPincode : string;
  s_toPincode : string;
  s_startTime : Z;
  s_vehicleType : option string;
  includeEnhancedDuration : bool
}.

(** [{...vehicle, isAvailable: true, estimatedRideDurationHours,
    enhancedDurationHours, estimatedEndTime}] *)
Record AvailableVehicle : Type := mkAvailable {
  a_id : ObjectId;
  a_vehicle : Vehicle;
  a_estimatedRideDurationHours : Q;
  enhancedDurationHours : option number;
  estimatedEndTime : Z
}.

(** The object [findAvailableVehicles] returns; a field the object does
    not have is [None]. *)
Record SearchResult : Type := mkSearchResult {
  availableVehicles : list AvailableVehicle;
  r_estimatedRideDurationHours : Q;
  totalAvailable : option nat;
  totalSuitable : option nat;
  r_endTime : Z;
  message : option string
}.

(** [vehicleQuery]: capacity, [isActive: true] and, when a type is
    given (a non-empty string), the type. *)
Definition vehicleQuery (p : SearchParams) (kv : ObjectId * Vehicle) : bool :=
  (capacityKg kv.2 >=? capacityRequired p)
  && isActive kv.2
  && match s_vehicleType p with
     | Some EmptyString | None => true
     | Some t => String.eqb (vehicleType kv.2) t
     end.

Definition suitableVehicles (st : Store) (p : SearchParams)
  : list (ObjectId * Vehicle) :=
  map_to_list (filter (fun kv => vehicleQuery p kv = true) (vehicles st)).

(** The comparison function given to [sort]. *)
Definition compareVehicles (a b : AvailableVehicle) : Z :=
  if negb (capacityKg (a_vehicle a) =? capacityKg (a_vehicle b))
  then capacityKg (a_vehicle a) - capacityKg (a_vehicle b)
  else createdAt (a_vehicle b) - createdAt (a_vehicle a).

(** [Array.prototype.sort] with a comparison function: a stable sort. *)
Fixpoint insert_sorted {A} (cmp : A -> A -> Z) (x : A) (l : list A) : list A :=
  match l with
  | [] => [x]
  | y :: l' => if cmp x y <=? 0 then x :: l else y :: insert_sorted cmp x l'
  end.

Definition sort {A} (cmp : A -> A -> Z) (l : list A) : list A :=
  foldr (insert_sorted cmp) [] l.

(** The body of the [map] over the suitable vehicles; [None] is [null]. *)
Definition availability (st : Store) (p : SearchParams) (duration : Q)
  (endTime : Z) (kv : ObjectId * Vehicle) : option AvailableVehicle :=
  match findOverlappingBookings (bookings st) kv.1 (s_startTime p) endTime None with
  | [] =>
      let enhancedDuration :=
        if includeEnhancedDuration p then
          match TimeUtils.calculateEnhancedDuration (s_fromPincode p) (s_toPincode p)
                  {| TimeUtils.vehicleType := Some (vehicleType kv.2);
                     TimeUtils.trafficFactor := Some (12 # 10);
                     TimeUtils.includeLoadingTime := true |} with
          | Ok n => Some n
          | Err _ => None    (* not reached: the base estimate succeeded *)
          end
        else None in
      Some (mkAvailable kv.1 kv.2 duration enhancedDuration endTime)
  | _ :: _ => None
  end.

Definition findAvailableVehicles (st : Store) (p : SearchParams)
  : result AppError SearchResult :=
  map_err (fun e => Failed (TimeUtilsError e))
    (try! estimatedRideDurationHours :=
       TimeUtils.calculateEstimatedDuration (s_fromPincode p) (s_toPincode p) in
     try! endTime :=
       TimeUtils.calculateEndTime (s_startTime p) estimatedRideDurationHours in
     let suitable := suitableVehicles st p in
     match suitable with
     | [] =>
         Ok {| availableVehicles := [];
               r_estimatedRideDurationHours := estimatedRideDurationHours;
               totalAvailable := None;
               totalSuitable := None;
               r_endTime := endTime;
               message := Some "No vehicles found matching capacity requirements"%string |}
     | _ :: _ =>
         let availabilityResults :=
           List.map (availability st p estimatedRideDurationHours endTime) suitable in
         let available := omap id availabilityResults in
         let sorted := sort compareVehicles available in
         Ok {| availableVehicles := sorted;
               r_estimatedRideDurationHours := estimatedRideDurationHours;
               totalAvailable := Some (length sorted);
               totalSuitable := Some (length suitable);
               r_endTime := endTime;
               message := None |}
     end).

End VehicleService.

(** ** The vocabulary of the specification

    These definitions follow the words of the specification; the
    theorems below compare the code with them. *)

Module Spec.
Import JS Model.

(** The number a string of decimal digits denotes. *)
Definition code_value (s : string) : Z :=
  mathInt (List.map digit_value (list_ascii_of_string s)).

(** A valid location code: exactly six decimal digits, with a value in
    [100000, 999999]. *)
Definition valid_code (s : string) : bool :=
  (String.length s =? 6)%nat
  && forallb is_digit (list_ascii_of_string s)
  && (100000 <=? code_value s) && (code_value s <=? 999999).

(** What the estimator accepts: the integer that [parseInt] reads at
    the head of the string lies in [100000, 999999]. *)
Definition accepted (s : string) : Prop :=
  exists n, parseInt s = Some n /\ 100000 <= n <= 999999.









(** The terminal statuses. *)
Definition terminal : list Status := [cancelled; completed].

(** Two half-open windows [s1, e1) and [s2, e2) overlap. *)
Definition overlap (s1 e1 s2 e2 : Z) : Prop := s1 < e2 /\ e1 > s2.

(** The booking [b] of vehicle [vid] blocks the window [s, e) when the
    statuses in [released] do not count. *)
Definition blocks (released : list Status) (vid : ObjectId) (s e : Z)
  (b : Booking) : Prop :=
  vehicleId b = vid /\ (status b ∉ released)
  /\ overlap (startTime b) (endTime b) s e.

(** No double booking: two different bookings of one vehicle whose
    statuses are not in [released] do not overlap. *)
Definition no_double_booking (released : list Status)
  (coll : gmap positive Booking) : Prop :=
  forall i j b1 b2,
    i <> j -> coll !! i = Some b1 -> coll !! j = Some b2 ->
    vehicleId b1 = vehicleId b2 ->
    status b1 ∉ released -> status b2 ∉ released ->
    ~ overlap (startTime b1) (endTime b1) (startTime b2) (endTime b2).



(** The transition table of the state machine. *)
Definition allowed (s : Status) : list Status :=
  match s with
  | pending => [confirmed; cancelled]
  | confirmed => [in_progress; cancelled]
  | in_progress => [completed; cancelled]
  | completed => []
  | cancelled => []
  end.

(** The status a request names is in the allowed set of [s]. *)
Definition requests_allowed (s : Status) (t : option string) : Prop :=
  exists t', t = Some (status_name t') /\ t' ∈ allowed s.

(** A booking may be cancelled at [now]. *)
Definition cancellable (now : Z) (b : Booking) : Prop :=
  (status b = pending \/ status b = confirmed)
  /\ startTime b > now + 3600000.

(** The dispatch order: ascending capacity, the most recently created
    first among equal capacities. *)
Definition dispatch_le (a b : Vehicle) : Prop :=
  capacityKg a < capacityKg b
  \/ (capacityKg a = capacityKg b /\ createdAt a >= createdAt b).

(** The order of the list the search returns. *)
Definition listed_before (a b : VehicleService.AvailableVehicle) : Prop :=
  dispatch_le (VehicleService.a_vehicle a) (VehicleService.a_vehicle b).

End Spec.

(** ** A small fleet, for the examples *)

Module Scenario.
Import Model BookingService.

Definition hour : Z := 3600000.

Definition truck : Vehicle := mkVehicle "Test Truck" 5000 6 true "truck" 0.
Definition oldVan : Vehicle := mkVehicle "Old Van" 2000 4 false "van" 0.

Definition fleet : gmap positive Vehicle :=
  {[ 1%positive := truck; 2%positive := oldVan ]}.

(** A booking of the truck (vehicle 1) from T+2h to T+4h. *)
Definition trip (s : Status) : Booking :=
  mkBooking 1%positive "customer1" "110001" "110025" (2 * hour) (4 * hour) 2 s
    None None None None None.

Definition request (vid : positive) (start_ : Z) (end_ : option Z)
  (duration : option Q) : BookingData :=
  mkBookingData vid "customer2" "400001" "400002" start_ end_ duration
    None None None None.

(** Two calls for the truck and the same window. *)
Definition callA : Call := start 11 (request 1 (2 * hour) None None).
Definition callB : Call := start 12 (request 1 (2 * hour) None None).

(** Call after call; every [await] in turn; and the second call
    overtaken between its two checks. *)
Definition oneByOne : list nat := [0; 0; 0; 0; 0; 0; 1; 1; 1; 1; 1; 1]%nat.
Definition alternating : list nat := [0; 1; 0; 1; 0; 1; 0; 1; 0; 1; 0; 1]%nat.
Definition overtaken : list nat := [0; 0; 1; 1; 1; 0; 0; 0; 0; 1; 1; 1]%nat.

(** A search for more capacity than any vehicle of the fleet has, and
    one the truck can serve. *)
Definition heavySearch : VehicleService.SearchParams :=
  VehicleService.mkSearchParams 9000 "110001" "110025" (2 * hour) None false.
Definition lightSearch : VehicleService.SearchParams :=
  VehicleService.mkSearchParams 3000 "110001" "110025" (2 * hour) None false.

Definition emptyStore : Store := mkStore fleet ∅.
Definition storeWith (s : Status) : Store := mkStore fleet {[ 10%positive := trip s ]}.

End Scenario.

(** ** More of src/utils/timeUtils.js and src/utils/validationUtils.js *)

Module TimeRanges.

Inductive Error : Type :=
| InvalidDateFormat          (* 'Invalid date format': not reached by valid dates *)
| EndMustBeAfterStart.       (* 'End time must be after start time' *)

(** [timeRangesOverlap], on four valid dates. *)
Definition timeRangesOverlap (start1 end1 start2 end2 : Z) : result Error bool :=
  if (end1 <=? start1) || (end2 <=? start2) then Err EndMustBeAfterStart
  else Ok ((start1 <? end2) && (end1 >? start2)).

End TimeRanges.

Module ValidationUtils.
Import JS.

Inductive PincodeError : Type :=
| PincodeRequired            (* 'Pincode is required' *)
| NotExactlySixDigits        (* 'Pincode must be exactly 6 digits' *)
| NotInRange                 (* 'Pincode must be between 100000 and 999999' *)
| InvalidFormat.             (* 'Invalid pincode format': [toString] threw *)

(** [validatePincode] on a string: [Ok] carries [normalizedPincode]. A
    comparison with [NaN] is false, so a string that [parseInt] cannot
    read would pass the range check. *)
Definition validatePincode (pincode : string) : result PincodeError string :=
  let pincodeStr := trim pincode in
  match pincodeStr with
  | EmptyString => Err PincodeRequired
  | _ =>
      if negb (BookingService.six_digits pincodeStr) then Err NotExactlySixDigits
      else
        match parseInt pincodeStr with
        | Some pincodeNum =>
            if (pincodeNum <? 100000) || (pincodeNum >? 999999) then Err NotInRange
            else Ok pincodeStr
        | None => Ok pincodeStr
        end
  end.

End ValidationUtils.

(** ** More of src/services/bookingService.js *)

Module BookingServiceMore.
Import JS Model Errors BookingService.

(** The errors of the operations below: those of [Errors], and *)
Inductive ServiceError : Type :=
| Known (e : AppError)
| NotDeletable       (* 'Booking can only be deleted if it is completed or cancelled', 400, 'ValidationError' *)
| DeleteFailed       (* 'Failed to delete booking', 500, 'InternalError' *)
| HasActiveBookings. (* 'Cannot delete vehicle with active bookings. ...', 409, 'ConflictError' *)

(** What [deleteBooking] returns. *)
Record Deleted : Type := mkDeleted {
  del_id : ObjectId;
  del_status : Status;
  deletedAt : Z
}.

(** [deleteBooking]; [now] is the clock. [findByIdAndDelete] finds the
    document that [findById] has just found. *)
Definition deleteBooking (now : Z) (st : Store) (bookingId : ObjectId)
  : Store * result ServiceError Deleted :=
  match bookings st !! bookingId with
  | None => (st, Err (Known BookingNotFound))
  | Some booking =>
      if negb (bool_decide (status booking = completed)
               || bool_decide (status booking = cancelled))
      then (st, Err NotDeletable)
      else
        ({| vehicles := vehicles st; bookings := delete bookingId (bookings st) |},
         Ok (mkDeleted bookingId (status booking) now))
  end.

(** [checkBookingConflicts]: the overlapping bookings, each with its
    vehicle populated. *)
Definition checkBookingConflicts (st : Store) (vid : ObjectId) (start_ end_ : Z)
  (excludeBookingId : option ObjectId) : list Populated :=
  List.map (fun kb => mkPopulated kb.1 kb.2 (vehicles st !! vehicleId kb.2))
    (findOverlappingBookings (bookings st) vid start_ end_ excludeBookingId).

(** The options of the listings. [page] and [limit] are positive
    integers: the controllers pass what [validatePagination] normalised. *)
Record ListOptions : Type := mkListOptions {
  o_status : option string;
  o_fromDate : option Z;
  o_toDate : option Z;
  o_page : positive;
  o_limit : positive
}.

Record Pagination : Type := mkPagination {
  currentPage : Z;
  totalPages : Z;
  totalItems : Z;
  itemsPerPage : Z
}.

(** The query of [getVehicleBookings]: the vehicle, the status when one
    is given (a non-empty string), and the bounds on [startTime]. *)
Definition vehicleBookingsQuery (vid : ObjectId) (o : ListOptions)
  (kb : ObjectId * Booking) : bool :=
  bool_decide (vehicleId kb.2 = vid)
  && match o_status o with
     | Some EmptyString | None => true
     | Some s => String.eqb (status_name (status kb.2)) s
     end
  && match o_fromDate o with
     | Some d => startTime kb.2 >=? d
     | None => true
     end
  && match o_toDate o with
     | Some d => startTime kb.2 <=? d
     | None => true
     end.

(** [sort({ startTime: 1 })] *)
Definition byStartTime (a b : ObjectId * Booking) : Z :=
  startTime a.2 - startTime b.2.

(** The order of the listings: [a] starts no later than [b]. *)
Definition earlier (a b : ObjectId * Booking) : Prop :=
  startTime a.2 <= startTime b.2.

(** [Math.ceil(total / limit)] for a count and a positive limit. *)
Definition ceilDiv (total limit : Z) : Z := (total + limit - 1) / limit.

(** [getVehicleBookings]: the page and the pagination block. *)
Definition getVehicleBookings (st : Store) (vid : ObjectId) (o : ListOptions)
  : list (ObjectId * Booking) * Pagination :=
  let matching := map_to_list (filter (fun kb => vehicleBookingsQuery vid o kb = true)
                                 (bookings st)) in
  let skip := ((Pos.to_nat (o_page o) - 1) * Pos.to_nat (o_limit o))%nat in
  let page := take (Pos.to_nat (o_limit o))
                (drop skip (VehicleService.sort byStartTime matching)) in
  let total := Z.of_nat (length matching) in
  (page,
   {| currentPage := Z.pos (o_page o);
      totalPages := ceilDiv total (Z.pos (o_limit o));
      totalItems := total;
      itemsPerPage := Z.pos (o_limit o) |}).

(** The query of [getUpcomingBookings]: a start within the next 24
    hours and a status of confirmed or pending. *)
Definition upcomingQuery (now : Z) (kb : ObjectId * Booking) : bool :=
  let next24Hours := now + 24 * 60 * 60 * 1000 in
  (startTime kb.2 >=? now) && (startTime kb.2 <=? next24Hours)
  && (bool_decide (status kb.2 = confirmed) || bool_decide (status kb.2 = pending)).

Definition getUpcomingBookings (now : Z) (st : Store) (limit : positive)
  : list Populated :=
  List.map (fun kb => mkPopulated kb.1 kb.2 (vehicles st !! vehicleId kb.2))
    (take (Pos.to_nat limit)
       (VehicleService.sort byStartTime
          (map_to_list (filter (fun kb => upcomingQuery now kb = true) (bookings st))))).

(** [updateBookingStatus] called again and again on one booking: the
    store at the end and the number of calls that succeeded. *)
Fixpoint updateAll (st : Store) (bookingId : ObjectId)
  (calls : list (Z * UpdateData)) : Store * nat :=
  match calls with
  | [] => (st, O)
  | (now, u) :: rest =>
      let r := updateBookingStatus now st bookingId u in
      let '(st', n) := updateAll r.1 bookingId rest in
      (st', if is_ok r.2 then S n else n)
  end.

End BookingServiceMore.

(** ** More of src/models/Vehicle.js and src/services/vehicleService.js *)

Module VehicleServiceMore.
Import JS Model Errors BookingServiceMore.

(** [vehicleSchema.methods.canHandleCapacity] *)
Definition canHandleCapacity (this : Vehicle) (requiredCapacity : Z) : bool :=
  isActive this && (capacityKg this >=? requiredCapacity).

Definition byCapacity (a b : ObjectId * Vehicle) : Z :=
  capacityKg a.2 - capacityKg b.2.

(** [vehicleSchema.statics.findByMinCapacity] *)
Definition findByMinCapacity (coll : gmap positive Vehicle) (minCapacity : Z)
  : list (ObjectId * Vehicle) :=
  VehicleService.sort byCapacity
    (map_to_list (filter (fun kv : positive * Vehicle =>
                            (capacityKg kv.2 >=? minCapacity) && isActive kv.2 = true) coll)).

(** The query that counts the active bookings of a vehicle:
    pending, confirmed or in progress, and ending after [now]. *)
Definition activeBookingQuery (now : Z) (vid : ObjectId) (kb : ObjectId * Booking)
  : bool :=
  bool_decide (vehicleId kb.2 = vid)
  && (bool_decide (status kb.2 = pending) || bool_decide (status kb.2 = confirmed)
      || bool_decide (status kb.2 = in_progress))
  && (endTime kb.2 >? now).

Definition deactivate (v : Vehicle) : Vehicle :=
  {| name := name v; capacityKg := capacityKg v; tyres := tyres v;
     isActive := false; vehicleType := vehicleType v; createdAt := createdAt v |}.

(** [deleteVehicle]: the soft delete. *)
Definition deleteVehicle (now : Z) (st : Store) (vid : ObjectId)
  : Store * result ServiceError unit :=
  match vehicles st !! vid with
  | None => (st, Err (Known VehicleNotFound))
  | Some vehicle =>
      let activeBookings :=
        length (map_to_list (filter (fun kb => activeBookingQuery now vid kb = true)
                               (bookings st))) in
      if (0 <? activeBookings)%nat then (st, Err HasActiveBookings)
      else
        ({| vehicles := <[vid := deactivate vehicle]> (vehicles st);
            bookings := bookings st |},
         Ok tt)
  end.

End VehicleServiceMore.

(** ** Sequences of operations on the store *)

Module Session.
Import Model BookingService BookingServiceMore VehicleServiceMore.

Inductive Op : Type :=
| Create (now : Z) (newId : ObjectId) (data : BookingData)
| Update (now : Z) (bookingId : ObjectId) (u : UpdateData)
| Cancel (now1 now2 : Z) (bookingId : ObjectId) (reason : option string)
| Delete (now : Z) (bookingId : ObjectId)
| Deactivate (now : Z) (vid : ObjectId).

(** The store after one operation, whether it succeeded or failed. *)
Definition exec (st : Store) (op : Op) : Store :=
  match op with
  | Create now newId data => (createBooking now newId st data).1
  | Update now bookingId u => (updateBookingStatus now st bookingId u).1
  | Cancel now1 now2 bookingId reason => (cancelBooking now1 now2 st bookingId reason).1
  | Delete now bookingId => (deleteBooking now st bookingId).1
  | Deactivate now vid => (deleteVehicle now st vid).1
  end.

Definition execAll (st : Store) (ops : list Op) : Store := fold_left exec ops st.

(** How far a status is along the life of a booking. *)
Definition rank (s : Status) : nat :=
  match s with
  | pending => 0
  | confirmed => 1
  | in_progress => 2
  | completed | cancelled => 3
  end.

(** Every booking ends after it starts and carries six-digit codes and
    a duration between 0.1 and 168 hours. *)
Definition well_formed (b : Booking) : Prop :=
  endTime b > startTime b
  /\ six_digits (fromPincode b) = true /\ six_digits (toPincode b) = true
  /\ (1 # 10 <= estimatedRideDurationHours b)%Q
  /\ (estimatedRideDurationHours b <= 168)%Q.

Definition all_well_formed (st : Store) : Prop :=
  forall k b, bookings st !! k = Some b -> well_formed b.

(** Every booking names a vehicle of the catalog. *)
Definition references_ok (st : Store) : Prop :=
  forall k b, bookings st !! k = Some b -> is_Some (vehicles st !! vehicleId b).

(** A booking in progress or completed has its actual start recorded, a
    completed one its actual end too. *)
Definition stamped (b : Booking) : Prop :=
  (status b = in_progress \/ status b = completed -> is_Some (actualStartTime b))
  /\ (status b = completed -> is_Some (actualEndTime b)).

Definition all_stamped (st : Store) : Prop :=
  forall k b, bookings st !! k = Some b -> stamped b.

(** The vehicle has a booking that is neither cancelled nor completed
    and ends after [now]. *)
Definition has_active_booking (now : Z) (st : Store) (vid : ObjectId) : Prop :=
  exists k b, bookings st !! k = Some b /\ vehicleId b = vid
              /\ (status b ∉ Spec.terminal) /\ endTime b > now.

End Session.

(** * Properties *)

(** ** The duration estimator *)

Section Estimator.
Import JS TimeUtils Spec.

Lemma digit_not_space_or_sign c :
  is_digit c = true ->
  trimStart (String c EmptyString) = String c EmptyString
  /\ c <> "-"%char /\ c <> "+"%char.
Proof.
  destruct c as [[] [] [] [] [] [] [] []]; vm_compute; intros H;
    try discriminate H; repeat split; discriminate.
Qed.

Lemma parseInt_digit c s :
  is_digit c = true ->
  parseInt (String c s) = Some (mathInt (digit_value c :: digits_prefix s)).
Proof.
  intros Hc. destruct (digit_not_space_or_sign c Hc) as (Hw & Hm & Hp).
  unfold parseInt. simpl trimStart. simpl in Hw.
  destruct (is_whitespace c); [discriminate Hw|].
  assert (Hd : digits_prefix (String c s) = digit_value c :: digits_prefix s)
    by (simpl; now rewrite Hc).
  destruct c as [[] [] [] [] [] [] [] []];
    try (exfalso; apply Hm; reflexivity); try (exfalso; apply Hp; reflexivity);
    rewrite Hd; unfold mathInt; simpl fold_left;
    match goal with |- Some (1 * ?x) = _ => destruct x; reflexivity end.
Qed.

Lemma digits_prefix_all s :
  forallb is_digit (list_ascii_of_string s) = true ->
  digits_prefix s = List.map digit_value (list_ascii_of_string s).
Proof.
  induction s as [|c s IH]; simpl; [reflexivity|].
  intros H. apply andb_true_iff in H as [Hc Hs].
  rewrite Hc. f_equal. now apply IH.
Qed.

(** On a string of digits [parseInt] reads the whole string. *)
Lemma parseInt_digits s :
  s <> EmptyString ->
  forallb is_digit (list_ascii_of_string s) = true ->
  parseInt s = Some (code_value s).
Proof.
  destruct s as [|c s]; [congruence|]. intros _ H.
  pose proof H as H'. simpl in H'. apply andb_true_iff in H' as [Hc Hs].
  rewrite (parseInt_digit c s Hc). unfold code_value. simpl.
  now rewrite (digits_prefix_all s Hs).
Qed.

Lemma valid_code_accepted s : valid_code s = true -> accepted s.
Proof.
  unfold valid_code. rewrite !andb_true_iff.
  intros [[[Hlen Hdig] Hlo] Hhi].
  exists (code_value s). split; [|lia].
  apply parseInt_digits; [|exact Hdig].
  intros ->. discriminate Hlen.
Qed.

Lemma valid_code_parse s :
  valid_code s = true ->
  parseInt s = Some (code_value s) /\ out_of_range (code_value s) = false.
Proof.
  intros H. pose proof H as H'. unfold valid_code in H'.
  rewrite !andb_true_iff in H'. destruct H' as [[[Hlen Hdig] Hlo] Hhi].
  split.
  - apply parseInt_digits; [|exact Hdig]. intros ->. discriminate Hlen.
  - unfold out_of_range. lia.
Qed.

Lemma Math_max_half_int k :
  0 <= k ->
  Math_max (inject_Z k) (1 # 2) = if k =? 0 then 1 # 2 else inject_Z k.
Proof.
  intros Hk. unfold Math_max, Qle_bool, inject_Z. simpl.
  destruct (Z.eqb_spec k 0) as [->|Hne]; [reflexivity|].
  destruct (k * 2 <=? 1 * 1) eqn:E; [apply Z.leb_le in E; lia|reflexivity].
Qed.

Lemma Forall_digits_prefix s :
  Forall (fun d => 0 <= d <= 9) (digits_prefix s).
Proof.
  induction s as [|c s IH]; simpl; [constructor|].
  destruct (is_digit c) eqn:Hc; [|constructor].
  constructor; [|exact IH].
  unfold is_digit in Hc. unfold digit_value.
  apply andb_true_iff in Hc as [H1 H2].
  apply Nat.leb_le in H1, H2. lia.
Qed.

Lemma length_digits_prefix s : (length (digits_prefix s) <= String.length s)%nat.
Proof.
  induction s as [|c s IH]; simpl; [lia|].
  destruct (is_digit c); simpl; lia.
Qed.

Lemma length_trimStart s : (String.length (trimStart s) <= String.length s)%nat.
Proof.
  induction s as [|c s IH]; simpl; [lia|].
  destruct (is_whitespace c); simpl; lia.
Qed.

Lemma fold_digits_bound ds : forall acc,
  Forall (fun d => 0 <= d <= 9) ds -> 0 <= acc ->
  0 <= fold_left (fun a d => 10 * a + d) ds acc
    < (acc + 1) * 10 ^ Z.of_nat (length ds).
Proof.
  induction ds as [|d ds IH]; intros acc Hds Hacc; simpl fold_left.
  - simpl. lia.
  - inversion Hds as [|? ? Hd Hds']; subst.
    specialize (IH (10 * acc + d) Hds' ltac:(lia)).
    replace (Z.of_nat (length (d :: ds))) with (Z.succ (Z.of_nat (length ds)))
      by (simpl length; lia).
    rewrite Z.pow_succ_r by lia.
    assert (0 < 10 ^ Z.of_nat (length ds)) by (apply Z.pow_pos_nonneg; lia).
    nia.
Qed.

Lemma mathInt_bound ds :
  Forall (fun d => 0 <= d <= 9) ds ->
  0 <= mathInt ds < 10 ^ Z.of_nat (length ds).
Proof.
  intros H. pose proof (fold_digits_bound ds 0 H ltac:(lia)) as B.
  unfold mathInt. lia.
Qed.

(** What [parseInt] reads is smaller than ten to the length of the string. *)
Lemma parseInt_bound s n :
  parseInt s = Some n -> n < 10 ^ Z.of_nat (String.length s).
Proof.
  unfold parseInt.
  pose proof (length_trimStart s) as Ht.
  set (S := trimStart s) in *.
  assert (Hgen : forall sign S', (sign = 1 \/ sign = -1) ->
            (String.length S' <= String.length s)%nat ->
            match digits_prefix S' with
            | [] => None
            | _ :: _ => Some (sign * mathInt (digits_prefix S'))
            end = Some n -> n < 10 ^ Z.of_nat (String.length s)).
  { intros sign S' Hsign Hlen.
    pose proof (mathInt_bound _ (Forall_digits_prefix S')) as B.
    pose proof (length_digits_prefix S') as L.
    assert (10 ^ Z.of_nat (length (digits_prefix S')) <= 10 ^ Z.of_nat (String.length s))
      by (apply Z.pow_le_mono_r; lia).
    destruct (digits_prefix S') eqn:E; [discriminate|].
    intros [= <-]. destruct Hsign as [-> | ->]; lia. }
  destruct S as [|c r] eqn:ES.
  - simpl. discriminate.
  - assert (Hr : (String.length r <= String.length s)%nat) by (simpl in Ht; lia).
    destruct (Ascii.eqb_spec c "-"%char) as [-> | Hm].
    + intros H. apply (Hgen (-1) r); auto.
      destruct (digits_prefix r); exact H.
    + destruct (Ascii.eqb_spec c "+"%char) as [-> | Hp].
      * intros H. apply (Hgen 1 r); auto.
        destruct (digits_prefix r); exact H.
      * intros H. apply (Hgen 1 (String c r)); auto.
        destruct c as [[] [] [] [] [] [] [] []];
          try (exfalso; apply Hm; reflexivity);
          try (exfalso; apply Hp; reflexivity);
          destruct (digits_prefix (String _ r)); exact H.
Qed.

Lemma short_not_accepted s : (String.length s < 6)%nat -> ~ accepted s.
Proof.
  intros Hlen (n & Hp & Hn).
  apply parseInt_bound in Hp.
  assert (10 ^ Z.of_nat (String.length s) <= 10 ^ 5)
    by (apply Z.pow_le_mono_r; lia).
  change (10 ^ 5) with 100000 in *. lia.
Qed.

Lemma estimate_Ok_iff o d :
  is_ok (calculateEstimatedDuration o d) = true <-> accepted o /\ accepted d.
Proof.
  unfold calculateEstimatedDuration, accepted, out_of_range. split.
  - destruct (parseInt o) as [f|]; [|discriminate].
    destruct (parseInt d) as [t|]; [|discriminate].
    destruct ((f <? 100000) || (f >? 999999) || ((t <? 100000) || (t >? 999999))) eqn:E;
      [discriminate|].
    intros _. rewrite !orb_false_iff in E. destruct E as [[? ?] [? ?]].
    split; eexists; (split; [reflexivity|lia]).
  - intros [(f & -> & Hf) (t & -> & Ht)].
    replace ((f <? 100000) || (f >? 999999) || ((t <? 100000) || (t >? 999999)))
      with false; [reflexivity|].
    symmetry. rewrite !orb_false_iff. lia.
Qed.



(** C7, as the specification states it, fails: a string that is not six
    decimal digits is accepted when the integer at its head is in range. *)
Lemma estimate_accepts_trailing_text :
  valid_code "110001abc" = false
  /\ calculateEstimatedDuration "110001abc" "110025" = Ok (1 # 2).
Proof. split; reflexivity. Qed.

(** C7, amended. The estimate fails if and only if, for one of the two
    codes, [parseInt] reads no integer or reads one outside
    [100000, 999999]. Every valid six-digit code is accepted, and every
    string of fewer than six characters is rejected. *)
Theorem estimate_fails_iff :
  (forall o d,
     is_err (calculateEstimatedDuration o d) = true <-> ~ (accepted o /\ accepted d))
  /\ (forall s, valid_code s = true -> accepted s)
  /\ (forall s, (String.length s < 6)%nat -> ~ accepted s).
Proof.
  split; [|split].
  - intros o d. unfold is_err. rewrite negb_true_iff, <- estimate_Ok_iff.
    destruct (is_ok _); split; intros H; try discriminate; auto.
    exfalso. now apply H.
  - exact valid_code_accepted.
  - exact short_not_accepted.
Qed.

(** A five-digit code is rejected, a valid one accepted. *)
Lemma estimate_fails_iff_witness :
  is_err (calculateEstimatedDuration "12345" "110001") = true
  /\ accepted "400001"
  /\ ~ accepted "12345".
Proof.
  destruct estimate_fails_iff as (Hiff & Hvalid & Hshort).
  split; [|split].
  - apply (Hiff "12345"%string "110001"%string).
    intros [Ha _]. apply (Hshort "12345"%string); [simpl; lia|exact Ha].
  - apply (Hvalid "400001"%string). reflexivity.
  - apply (Hshort "12345"%string). simpl. lia.
Defined.

End Estimator.

(** ** The enhanced estimate *)

Section Enhanced.
Import JS TimeUtils Spec.
Local Open Scope Q_scope.












End Enhanced.

(** ** Conflict detection and [createBooking] *)

Section Create.
Import JS Model Errors BookingService Spec.

Lemma overlap_query_blocks vid s e k b :
  overlap_query vid s e None (k, b) = true <-> blocks terminal vid s e b.
Proof.
  unfold overlap_query, blocks, overlap, terminal.
  rewrite !andb_true_iff, negb_true_iff, orb_false_iff, !bool_decide_eq_false,
    bool_decide_eq_true, !elem_of_cons, elem_of_nil.
  rewrite Z.ltb_lt, Z.gtb_gt. intuition.
Qed.

Lemma overlap_query_exclude vid s e x k b :
  overlap_query vid s e (Some x) (k, b) = true ->
  overlap_query vid s e None (k, b) = true.
Proof.
  unfold overlap_query. rewrite !andb_true_iff. intuition.
Qed.

(** The query finds nothing exactly when no document matches it. *)
Lemma findOverlappingBookings_nil coll vid s e ex :
  findOverlappingBookings coll vid s e ex = []
  <-> forall k b, coll !! k = Some b -> overlap_query vid s e ex (k, b) = false.
Proof.
  unfold findOverlappingBookings.
  rewrite map_to_list_empty_iff, map_empty. split.
  - intros H k b Hkb.
    destruct (overlap_query vid s e ex (k, b)) eqn:E; [|reflexivity].
    specialize (H k).
    assert (Hs : filter (fun kb => overlap_query vid s e ex kb = true) coll !! k = Some b)
      by (apply map_lookup_filter_Some; split; assumption).
    rewrite Hs in H. discriminate.
  - intros H k.
    destruct (filter _ coll !! k) as [b|] eqn:E; [|reflexivity].
    apply map_lookup_filter_Some in E as [Hkb Hq].
    rewrite (H k b Hkb) in Hq. discriminate.
Qed.

(** The check of [createBooking] fails exactly when a booking of the
    vehicle that is neither cancelled nor completed overlaps the window. *)
Lemma checkOverlap_conflict st data e :
  checkOverlap st data e = Err BookingConflict
  <-> exists k b, bookings st !! k = Some b
        /\ blocks terminal (d_vehicleId data) (d_startTime data) e b.
Proof.
  unfold checkOverlap.
  destruct (findOverlappingBookings _ _ _ _ _) as [|kb l] eqn:E.
  - split; [discriminate|].
    intros (k & b & Hkb & Hb).
    pose proof (proj1 (findOverlappingBookings_nil _ _ _ _ _) E k b Hkb) as Hq.
    apply (overlap_query_blocks _ _ _ k) in Hb. congruence.
  - split; [intros _|reflexivity].
    assert (Hin : kb ∈ findOverlappingBookings (bookings st) (d_vehicleId data)
                     (d_startTime data) e None) by (rewrite E; left).
    destruct kb as [k b]. unfold findOverlappingBookings in Hin.
    apply elem_of_map_to_list, map_lookup_filter_Some in Hin as [Hkb Hq].
    exists k, b. split; [assumption|].
    exact (proj1 (overlap_query_blocks _ _ _ k b) Hq).
Qed.

Lemma checkOverlap_cases st data e :
  checkOverlap st data e = Ok tt \/ checkOverlap st data e = Err BookingConflict.
Proof.
  unfold checkOverlap. destruct (findOverlappingBookings _ _ _ _ _); auto.
Qed.

(** What a document that went through [newBooking] and the first
    pre-save hook carries. *)
Lemma saveValidate_fields now data e dur doc :
  saveValidate now (newBooking data e dur) = Ok doc ->
  vehicleId doc = d_vehicleId data /\ startTime doc = d_startTime data
  /\ endTime doc = e /\ estimatedRideDurationHours doc = dur
  /\ status doc = confirmed.
Proof.
  unfold saveValidate. destruct (schema_valid _ _); [|discriminate].
  intros [= <-]. repeat split.
Qed.

(** What goes wrong inside [save] is not an [AppError] of its own: the
    [catch] of [createBooking] wraps it. *)
Lemma saveValidate_err now doc e :
  saveValidate now doc = Err e -> exists c, e = Failed c.
Proof.
  unfold saveValidate. destruct (schema_valid _ _); [discriminate|].
  intros [= <-]. eauto.
Qed.

Lemma saveVehicle_err st doc e :
  saveVehicle st doc = Err e -> exists c, e = Failed c.
Proof.
  unfold saveVehicle. destruct (bool_decide _); [discriminate|].
  destruct (vehicles st !! vehicleId doc) as [v|]; [destruct (isActive v)|];
    try discriminate; intros [= <-]; eauto.
Qed.

Lemma saveOverlap_err st id doc e :
  saveOverlap st id doc = Err e -> exists c, e = Failed c.
Proof.
  unfold saveOverlap. destruct (bool_decide _); [discriminate|].
  destruct (findOverlappingBookings _ _ _ _ _); [discriminate|].
  intros [= <-]. eauto.
Qed.

Lemma insertDoc_err st id doc e :
  insertDoc st id doc = Err e -> exists c, e = Failed c.
Proof.
  unfold insertDoc. destruct (bookings st !! id); [|discriminate].
  intros [= <-]. eauto.
Qed.

(** The ways [createBooking] ends: it fails and leaves the store, or it
    inserts one document under the new [_id]. *)
Lemma createBooking_cases now newId st data :
  (exists e, createBooking now newId st data = (st, Err e))
  \/ (exists vehicle dur e doc,
        loadVehicle st data = Ok vehicle
        /\ resolveWindow data = Ok (dur, e)
        /\ checkOverlap st data e = Ok tt
        /\ saveValidate now (newBooking data e dur) = Ok doc
        /\ bookings st !! newId = None
        /\ createBooking now newId st data =
             ({| vehicles := vehicles st; bookings := <[newId := doc]> (bookings st) |},
              Ok (Some (mkPopulated newId doc (vehicles st !! vehicleId doc))))).
Proof.
  unfold createBooking.
  destruct (loadVehicle st data) as [vehicle|e1] eqn:E1; [|left; eauto].
  destruct (resolveWindow data) as [[dur e]|e2] eqn:E2; [|left; eauto].
  simpl bind.
  destruct (checkOverlap st data e) as [[]|e3] eqn:E3; [|left; eauto].
  simpl bind.
  destruct (saveValidate now (newBooking data e dur)) as [doc|e4] eqn:E4; [|left; eauto].
  simpl bind.
  destruct (saveVehicle st doc) as [[]|e5] eqn:E5; [|left; eauto].
  simpl bind.
  destruct (saveOverlap st newId doc) as [[]|e6] eqn:E6; [|left; eauto].
  simpl bind. unfold insertDoc.
  destruct (bookings st !! newId) eqn:E7; [left; eauto|].
  right. exists vehicle, dur, e, doc. repeat (split; [assumption || reflexivity|]).
  unfold readBack. simpl. now rewrite lookup_insert_eq.
Qed.

(** A store without double bookings stays so when a document that
    nothing blocks is inserted under a new [_id]. *)
Lemma no_double_booking_insert coll newId doc :
  no_double_booking terminal coll ->
  coll !! newId = None ->
  (forall k b, coll !! k = Some b ->
     ~ blocks terminal (vehicleId doc) (startTime doc) (endTime doc) b) ->
  no_double_booking terminal (<[newId := doc]> coll).
Proof.
  intros Hinv Hnew Hfree i j b1 b2 Hij H1 H2 Hv Hs1 Hs2 Hov.
  rewrite lookup_insert in H1, H2.
  destruct (decide (newId = i)) as [Hi|Hi];
    destruct (decide (newId = j)) as [Hj|Hj]; simplify_eq.
  - apply (Hfree j b2 H2). unfold blocks, overlap in *. repeat split; auto; lia.
  - apply (Hfree i b1 H1). unfold blocks, overlap in *. repeat split; auto; lia.
  - exact (Hinv i j b1 b2 Hij H1 H2 Hv Hs1 Hs2 Hov).
Qed.

Lemma toIntegerMs_whole x z : (x == inject_Z z)%Q -> toIntegerMs x = z.
Proof.
  unfold Qeq, toIntegerMs. simpl. intros H.
  rewrite Z.mul_1_r in H. rewrite H. apply Z.quot_mul. discriminate.
Qed.

(** When the duration is a whole number [m] of milliseconds the end is
    [startTime + m]. *)
Lemma calculateEndTime_whole s dur m :
  (0 < dur)%Q -> (dur * 60 * 60 * 1000 == inject_Z m)%Q ->
  TimeUtils.calculateEndTime s dur = Ok (s + m).
Proof.
  intros Hpos Hm. unfold TimeUtils.calculateEndTime.
  destruct (Qle_bool dur 0) eqn:E.
  - apply Qle_bool_iff in E. exfalso. exact (Qlt_not_le _ _ Hpos E).
  - f_equal. apply toIntegerMs_whole. rewrite Hm, inject_Z_plus. reflexivity.
Qed.





(** C2, as the specification states it, fails: a completed booking
    that overlaps the requested window is no conflict, and the two then
    stand side by side among the bookings that are not cancelled. *)
Lemma completed_booking_is_no_conflict :
  let r := createBooking 0 11 (Scenario.storeWith completed)
             (Scenario.request 1 (2 * Scenario.hour) (Some (4 * Scenario.hour)) (Some (2 # 1))) in
  blocks [cancelled] 1 (2 * Scenario.hour) (4 * Scenario.hour) (Scenario.trip completed)
  /\ is_ok r.2 = true
  /\ ~ no_double_booking [cancelled] (bookings r.1).
Proof.
  split; [|split].
  - unfold blocks, overlap. simpl. repeat split; try reflexivity.
    rewrite elem_of_cons, elem_of_nil. intros [H|[]]. discriminate H.
  - vm_compute. reflexivity.
  - intros H.
    destruct (bookings (createBooking 0 11 (Scenario.storeWith completed)
                (Scenario.request 1 (2 * Scenario.hour) (Some (4 * Scenario.hour))
                   (Some (2 # 1)))).1 !! 11%positive) as [doc|] eqn:E;
      [|vm_compute in E; discriminate E].
    apply (H 10%positive 11%positive (Scenario.trip completed) doc).
    + discriminate.
    + vm_compute. reflexivity.
    + exact E.
    + vm_compute in E. injection E as <-. reflexivity.
    + rewrite elem_of_cons, elem_of_nil. intros [H'|[]]. discriminate H'.
    + vm_compute in E. injection E as <-. simpl.
      rewrite elem_of_cons, elem_of_nil. intros [H'|[]]. discriminate H'.
    + vm_compute in E. injection E as <-. unfold overlap. simpl.
      unfold Scenario.hour. lia.
Qed.

(** C2, amended. The conflict candidates of [createBooking] are the
    bookings of the vehicle whose status is neither cancelled nor
    completed: once the vehicle is found active and the window
    [startTime, endTime) is resolved, the call fails with
    [BookingConflict] exactly when one of them overlaps the window
    ([s1 < e2] and [e1 > s2]); and a store in which no two such bookings
    of a vehicle overlap is again such a store after the call. *)
Theorem create_conflict_candidates :
  (forall now newId st data vehicle dur e,
     vehicles st !! d_vehicleId data = Some vehicle -> isActive vehicle = true ->
     resolveWindow data = Ok (dur, e) ->
     ((exists k b, bookings st !! k = Some b
         /\ blocks terminal (d_vehicleId data) (d_startTime data) e b)
      <-> (createBooking now newId st data).2 = Err BookingConflict))
  /\ (forall now newId st data,
       no_double_booking terminal (bookings st) ->
       no_double_booking terminal (bookings (createBooking now newId st data).1)).
Proof.
  split.
  - intros now newId st data vehicle dur e Hlook Hact Hw.
    assert (Hv : loadVehicle st data = Ok vehicle)
      by (unfold loadVehicle; now rewrite Hlook, Hact).
    rewrite <- checkOverlap_conflict.
    unfold createBooking. rewrite Hv, Hw. simpl bind.
    destruct (checkOverlap_cases st data e) as [-> | ->]; simpl bind.
    + split; [discriminate|].
      destruct (saveValidate _ _) as [doc|e4] eqn:E4; simpl bind;
        [|apply saveValidate_err in E4 as [c ->]; discriminate].
      destruct (saveVehicle st doc) as [[]|e5] eqn:E5; simpl bind;
        [|apply saveVehicle_err in E5 as [c ->]; discriminate].
      destruct (saveOverlap st newId doc) as [[]|e6] eqn:E6; simpl bind;
        [|apply saveOverlap_err in E6 as [c ->]; discriminate].
      destruct (insertDoc st newId doc) as [st'|e7] eqn:E7; simpl;
        [|apply insertDoc_err in E7 as [c ->]]; discriminate.
    + split; reflexivity.
  - intros now newId st data Hinv.
    destruct (createBooking_cases now newId st data)
      as [(e & ->) | (vehicle & dur & e & doc & Hv & Hw & Hc & Hd & Hn & ->)];
      [exact Hinv|].
    simpl. apply no_double_booking_insert; [exact Hinv | exact Hn |].
    intros k b Hkb Hb.
    destruct (saveValidate_fields _ _ _ _ _ Hd) as (F1 & F2 & F3 & _).
    rewrite F1, F2, F3 in Hb.
    assert (Hconf : checkOverlap st data e = Err BookingConflict)
      by (apply checkOverlap_conflict; eauto).
    congruence.
Qed.

(** A confirmed trip blocks an overlapping request; a first booking
    into the empty store keeps it free of double bookings. *)
Lemma create_conflict_candidates_witness :
  ((exists k b, bookings (Scenario.storeWith confirmed) !! k = Some b
      /\ blocks terminal 1 (3 * Scenario.hour) (5 * Scenario.hour) b)
   <-> (createBooking 0 11 (Scenario.storeWith confirmed)
          (Scenario.request 1 (3 * Scenario.hour) (Some (5 * Scenario.hour)) (Some (2 # 1)))).2
       = Err BookingConflict)
  /\ no_double_booking terminal
       (bookings (createBooking 0 11 Scenario.emptyStore
          (Scenario.request 1 (2 * Scenario.hour) None None)).1).
Proof.
  destruct create_conflict_candidates as [Hconf Hinv]. split.
  - apply (Hconf 0 11%positive (Scenario.storeWith confirmed)
             (Scenario.request 1 (3 * Scenario.hour) (Some (5 * Scenario.hour)) (Some (2 # 1)))
             Scenario.truck (2 # 1)%Q (5 * Scenario.hour)); reflexivity.
  - apply Hinv. intros i j b1 b2 _ H1. simpl in H1.
    rewrite lookup_empty in H1. discriminate H1.
Defined.

End Create.

(** ** Calls of [createBooking] in flight together *)

Section Interleaving.
Import JS Model Errors BookingService Spec.

Lemma step_call_single now st c :
  step_call now 0 (st, [c]) = ((step now st c).1, [(step now st c).2]).
Proof. unfold step_call. simpl. now destruct (step now st c). Qed.

Lemma run_cons now i schedule cfg :
  run now (i :: schedule) cfg = run now schedule (step_call now i cfg).
Proof. reflexivity. Qed.

(** A call that is done stays done. *)
Lemma run_done now schedule st id data r :
  Forall (fun i => i = 0%nat) schedule ->
  run now schedule (st, [mkCall id data (Done r)]) = (st, [mkCall id data (Done r)]).
Proof.
  induction 1 as [|i l -> _ IH]; [reflexivity|].
  rewrite run_cons, step_call_single. exact IH.
Qed.

Ltac one_step :=
  rewrite run_cons, step_call_single; unfold step at 1 2;
  cbn [c_phase c_data c_newId].
Ltac advance := unfold goto; cbn [bind fst snd c_newId c_data].
Ltac stopped := advance; rewrite run_done by (repeat constructor); reflexivity.

(** Run alone, the six steps of a call are [createBooking]. *)
Lemma createBooking_steps now newId st data :
  run now [0; 0; 0; 0; 0; 0]%nat (st, [start newId data])
  = ((createBooking now newId st data).1,
     [mkCall newId data (Done (createBooking now newId st data).2)]).
Proof.
  unfold createBooking, start.
  one_step.
  destruct (loadVehicle st data) as [vehicle|e1]; [|stopped].
  destruct (resolveWindow data) as [[dur e]|e2]; [|stopped].
  advance. one_step.
  destruct (checkOverlap st data e) as [[]|e3]; [|stopped].
  destruct (saveValidate now (newBooking data e dur)) as [doc|e4]; [|stopped].
  advance. one_step.
  destruct (saveVehicle st doc) as [[]|e5]; [|stopped].
  advance. one_step.
  destruct (saveOverlap st newId doc) as [[]|e6]; [|stopped].
  advance. one_step.
  destruct (insertDoc st newId doc) as [st'|e7]; [|stopped].
  advance. one_step.
  reflexivity.
Qed.

(** C1 fails on the code: the overlap check and the insert of
    [createBooking] are separate accesses to the store, and two calls
    for the same vehicle and window that run one after the other end in
    one success and one [BookingConflict], but when each call reaches
    its checks before the other inserts, both succeed and the store
    holds two overlapping bookings; and when the second call is
    overtaken between its two checks it fails with a server error that
    is not [BookingConflict]. *)
Theorem concurrent_creates_race :
  let calls := [Scenario.callA; Scenario.callB] in
  List.map outcome (run 0 Scenario.oneByOne (Scenario.emptyStore, calls)).2 !! 1%nat
    = Some (Some (Err BookingConflict))
  /\ forallb succeeded (run 0 Scenario.alternating (Scenario.emptyStore, calls)).2 = true
  /\ ~ no_double_booking terminal
        (bookings (run 0 Scenario.alternating (Scenario.emptyStore, calls)).1)
  /\ List.map outcome (run 0 Scenario.overtaken (Scenario.emptyStore, calls)).2 !! 1%nat
     = Some (Some (Err (Failed HookSlotTaken))).
Proof.
  cbv zeta. split; [vm_compute; reflexivity|].
  split; [vm_compute; reflexivity|].
  split; [|vm_compute; reflexivity].
  intros H.
  destruct (bookings (run 0 Scenario.alternating
              (Scenario.emptyStore, [Scenario.callA; Scenario.callB])).1 !! 11%positive)
    as [b1|] eqn:E1; [|vm_compute in E1; discriminate E1].
  destruct (bookings (run 0 Scenario.alternating
              (Scenario.emptyStore, [Scenario.callA; Scenario.callB])).1 !! 12%positive)
    as [b2|] eqn:E2; [|vm_compute in E2; discriminate E2].
  apply (H 11%positive 12%positive b1 b2).
  - discriminate.
  - exact E1.
  - exact E2.
  - vm_compute in E1. vm_compute in E2.
    injection E1 as <-. injection E2 as <-. reflexivity.
  - vm_compute in E1. injection E1 as <-. unfold terminal.
    rewrite !elem_of_cons, elem_of_nil. intros [H'|[H'|[]]]; discriminate H'.
  - vm_compute in E2. injection E2 as <-. unfold terminal.
    rewrite !elem_of_cons, elem_of_nil. intros [H'|[H'|[]]]; discriminate H'.
  - vm_compute in E1. vm_compute in E2.
    injection E1 as <-. injection E2 as <-. unfold overlap. simpl. lia.
Qed.

End Interleaving.

(** ** Status transitions and cancellation *)

Section Transitions.
Import JS Model Errors BookingService Spec.

(** The table in the code is the table of the specification. *)
Lemma includes_validTransitions s t :
  includes (validTransitions s) t = true <-> requests_allowed s t.
Proof.
  unfold requests_allowed. split.
  - destruct t as [t|]; [|discriminate]. simpl.
    destruct s; simpl; rewrite ?orb_true_iff, ?String.eqb_eq;
      intros H; repeat (destruct H as [H|H]); try discriminate H; subst t;
      first [ exists confirmed; split; [reflexivity|set_solver]
            | exists cancelled; split; [reflexivity|set_solver]
            | exists in_progress; split; [reflexivity|set_solver]
            | exists completed; split; [reflexivity|set_solver] ].
  - intros (t' & -> & Hin).
    destruct s; simpl in Hin; rewrite ?elem_of_cons, ?elem_of_nil in Hin;
      repeat (destruct Hin as [Hin|Hin]); try contradiction; subst t'; reflexivity.
Qed.

Lemma status_of_string_name s : status_of_string (status_name s) = Some s.
Proof. now destruct s. Qed.

Lemma canBeCancelled_spec now b :
  canBeCancelled now b = true <-> cancellable now b.
Proof.
  unfold canBeCancelled, cancellable.
  rewrite andb_true_iff, orb_true_iff, !bool_decide_eq_true, Z.gtb_gt.
  change (60 * 60 * 1000) with 3600000. reflexivity.
Qed.

Lemma is_string_name t s :
  is_string (Some (status_name t)) (status_name s) = bool_decide (t = s).
Proof. destruct t, s; reflexivity. Qed.

(** The ways [updateBookingStatus] ends on a booking that exists. *)
Lemma updateBookingStatus_cases now st id upd b :
  bookings st !! id = Some b ->
  let r := updateBookingStatus now st id upd in
  (~ requests_allowed (status b) (u_status upd)
   /\ r = (st, Err (InvalidStatusTransition (status b) (u_status upd))))
  \/ (requests_allowed (status b) (u_status upd)
      /\ u_status upd = Some "cancelled"%string /\ ~ cancellable now b
      /\ r = (st, Err NotCancellable))
  \/ (requests_allowed (status b) (u_status upd)
      /\ (u_status upd = Some "cancelled"%string -> cancellable now b)
      /\ r = (st, Err (Failed SchemaValidation)))
  \/ (exists t newNotes,
        u_status upd = Some (status_name t) /\ t ∈ allowed (status b)
        /\ (t = cancelled -> cancellable now b)
        /\ r = ({| vehicles := vehicles st;
                   bookings := <[id := applyUpdate now b t newNotes]> (bookings st) |},
                Ok (mkPopulated id (applyUpdate now b t newNotes)
                      (vehicles st !! vehicleId b)))).
Proof.
  intros Hb. cbv zeta. unfold updateBookingStatus. rewrite Hb.
  destruct (includes (validTransitions (status b)) (u_status upd)) eqn:Hinc; simpl negb; cbv iota.
  2:{ left. split; [|reflexivity].
      rewrite <- includes_validTransitions. congruence. }
  pose proof (proj1 (includes_validTransitions _ _) Hinc) as Hall.
  destruct Hall as (t & Ht & Hin). right.
  rewrite Ht. change "cancelled"%string with (status_name cancelled).
  rewrite is_string_name.
  destruct (bool_decide (t = cancelled)) eqn:Hc; simpl andb.
  - apply bool_decide_eq_true in Hc. subst t.
    destruct (canBeCancelled now b) eqn:Hcan; simpl negb; cbv iota.
    + right. cbn [mbind option_bind]. rewrite status_of_string_name.
      apply canBeCancelled_spec in Hcan.
      destruct (notes_ok _) eqn:Hn.
      * right. eexists cancelled, _.
        split; [reflexivity|split; [exact Hin|split; [auto|reflexivity]]].
      * left. split; [exists cancelled; auto|split; [auto|reflexivity]].
    + left. split; [exists cancelled; auto|].
      split; [reflexivity|split; [|reflexivity]].
      rewrite <- canBeCancelled_spec. congruence.
  - apply bool_decide_eq_false in Hc. right.
    cbn [mbind option_bind]. rewrite status_of_string_name.
    destruct (notes_ok _) eqn:Hn.
    + right. eexists t, _.
      split; [reflexivity|split; [exact Hin|split; [|reflexivity]]].
      intros ->. contradiction.
    + left. split; [exists t; auto|split; [|reflexivity]].
      intros E. apply (f_equal (fun o => o ≫= status_of_string)) in E.
      cbn [mbind option_bind] in E. rewrite status_of_string_name in E.
      injection E as ->. contradiction.
Qed.

(** C4. On a booking with status [s], [updateBookingStatus] succeeds
    only if the requested status is in the allowed set of [s] in the
    transition table; every other request fails with
    [InvalidStatusTransition] and leaves the store unchanged; and a
    booking that is completed or cancelled accepts no transition. *)
Theorem transition_closure now st id upd b :
  bookings st !! id = Some b ->
  let r := updateBookingStatus now st id upd in
  (is_ok r.2 = true -> requests_allowed (status b) (u_status upd))
  /\ (~ requests_allowed (status b) (u_status upd) ->
      r = (st, Err (InvalidStatusTransition (status b) (u_status upd))))
  /\ (status b = completed \/ status b = cancelled ->
      r = (st, Err (InvalidStatusTransition (status b) (u_status upd)))).
Proof.
  intros Hb. cbv zeta.
  assert (Hnot : ~ requests_allowed (status b) (u_status upd) ->
            updateBookingStatus now st id upd
            = (st, Err (InvalidStatusTransition (status b) (u_status upd)))).
  { intros Hn.
    destruct (updateBookingStatus_cases now st id upd b Hb)
      as [[_ ->] | [(Ha & _) | [(Ha & _) | (t & n & Ht & Hin & _)]]];
      [reflexivity | contradiction | contradiction |].
    exfalso. apply Hn. exists t. auto. }
  split; [|split].
  - destruct (updateBookingStatus_cases now st id upd b Hb)
      as [[_ ->] | [(Ha & _ & _ & ->) | [(Ha & _ & ->) | (t & n & Ht & Hin & _)]]];
      try discriminate.
    intros _. exists t. auto.
  - exact Hnot.
  - intros Hterm. apply Hnot. intros (t & _ & Hin).
    destruct Hterm as [E|E]; rewrite E in Hin; simpl in Hin;
      now apply elem_of_nil in Hin.
Qed.

(** A completed booking does not go back to in progress. *)
Lemma transition_closure_witness :
  let r := updateBookingStatus 0 (Scenario.storeWith completed) 10
             {| u_status := Some "in_progress"%string; u_notes := None |} in
  (is_ok r.2 = true -> requests_allowed completed (Some "in_progress"%string))
  /\ (~ requests_allowed completed (Some "in_progress"%string) ->
      r = (Scenario.storeWith completed,
           Err (InvalidStatusTransition completed (Some "in_progress"%string))))
  /\ (completed = completed \/ completed = cancelled ->
      r = (Scenario.storeWith completed,
           Err (InvalidStatusTransition completed (Some "in_progress"%string)))).
Proof.
  apply (transition_closure 0 (Scenario.storeWith completed) 10%positive
           {| u_status := Some "in_progress"%string; u_notes := None |}
           (Scenario.trip completed)).
  reflexivity.
Defined.

(** C5, as the specification states it, fails: on a completed booking
    [updateBookingStatus] with target cancelled fails with
    [InvalidStatusTransition], not with [NotCancellable]. *)
Lemma cancel_completed_is_invalid_transition :
  ~ cancellable 0 (Scenario.trip completed)
  /\ updateBookingStatus 0 (Scenario.storeWith completed) 10
       {| u_status := Some "cancelled"%string; u_notes := None |}
     = (Scenario.storeWith completed,
        Err (InvalidStatusTransition completed (Some "cancelled"%string))).
Proof.
  split; [|reflexivity].
  intros [[H|H] _]; discriminate H.
Qed.

(** C5, amended. [cancelBooking] succeeds only when the booking is
    pending or confirmed and starts more than one hour after the clock,
    at both of its readings; when that fails at either reading it fails
    with [NotCancellable] and the store is unchanged.
    [updateBookingStatus] with target cancelled succeeds only under the
    same condition; otherwise it leaves the store unchanged and fails
    with [NotCancellable] when the booking is pending, confirmed or in
    progress, and with [InvalidStatusTransition] when it is completed or
    cancelled. *)
Theorem cancellation_guard now1 now2 st id reason b :
  bookings st !! id = Some b ->
  (is_ok (cancelBooking now1 now2 st id reason).2 = true ->
   cancellable now1 b /\ cancellable now2 b)
  /\ (~ (cancellable now1 b /\ cancellable now2 b) ->
      cancelBooking now1 now2 st id reason = (st, Err NotCancellable))
  /\ (forall notes,
       let r := updateBookingStatus now1 st id
                  {| u_status := Some "cancelled"%string; u_notes := notes |} in
       (is_ok r.2 = true -> cancellable now1 b)
       /\ (~ cancellable now1 b -> status b ∉ terminal ->
           r = (st, Err NotCancellable))
       /\ (status b ∈ terminal ->
           r = (st, Err (InvalidStatusTransition (status b) (Some "cancelled"%string))))).
Proof.
  intros Hb.
  assert (Hupd : forall now notes,
            let r := updateBookingStatus now st id
                       {| u_status := Some "cancelled"%string; u_notes := notes |} in
            (is_ok r.2 = true -> cancellable now b)
            /\ (~ cancellable now b -> status b ∉ terminal ->
                r = (st, Err NotCancellable))
            /\ (status b ∈ terminal ->
                r = (st, Err (InvalidStatusTransition (status b) (Some "cancelled"%string))))).
  { intros now notes. cbv zeta.
    assert (Hreq : requests_allowed (status b) (Some "cancelled"%string)
                   <-> status b ∉ terminal).
    { unfold requests_allowed, terminal. split.
      - intros (t & _ & Hin) Hterm.
        rewrite !elem_of_cons, elem_of_nil in Hterm.
        destruct Hterm as [E|[E|[]]]; rewrite E in Hin; simpl in Hin;
          now apply elem_of_nil in Hin.
      - intros Hn. exists cancelled. split; [reflexivity|].
        destruct (status b); simpl; try set_solver. }
    destruct (updateBookingStatus_cases now st id
                {| u_status := Some "cancelled"%string; u_notes := notes |} b Hb)
      as [[Hn E] | [(Ha & _ & Hc & E) | [(Ha & Hc & E) | (t & n & Ht & Hin & Hc & E)]]];
      cbn [u_status] in *; rewrite E; clear E.
    - split; [discriminate|]. split; [|reflexivity].
      intros _ Hnt. exfalso. apply Hn. now apply Hreq.
    - split; [discriminate|]. split; [reflexivity|].
      intros Hterm. exfalso. now apply Hreq in Ha.
    - split; [discriminate|]. split; [intros Hn; exfalso; auto|].
      intros Hterm. exfalso. now apply Hreq in Ha.
    - assert (t = cancelled) as ->.
      { apply (f_equal (fun o => o ≫= status_of_string)) in Ht.
        cbn [mbind option_bind] in Ht. rewrite status_of_string_name in Ht.
        now injection Ht as <-. }
      split; [auto|]. split; [intros Hn; exfalso; auto|].
      intros Hterm. exfalso.
      assert (Ha : requests_allowed (status b) (Some "cancelled"%string))
        by (exists cancelled; auto).
      now apply Hreq in Ha. }
  assert (Hcan : cancelBooking now1 now2 st id reason
                 = if canBeCancelled now1 b
                   then updateBookingStatus now2 st id
                          {| u_status := Some "cancelled"%string;
                             u_notes := Some (default "Cancelled by user"%string reason) |}
                   else (st, Err NotCancellable)).
  { unfold cancelBooking. rewrite Hb. now destruct (canBeCancelled now1 b). }
  split; [|split].
  - rewrite Hcan. destruct (canBeCancelled now1 b) eqn:E1; [|discriminate].
    apply canBeCancelled_spec in E1. intros Hok.
    split; [exact E1|].
    exact (proj1 (Hupd now2 (Some (default "Cancelled by user"%string reason))) Hok).
  - intros Hn. rewrite Hcan.
    destruct (canBeCancelled now1 b) eqn:E1; [|reflexivity].
    apply canBeCancelled_spec in E1.
    apply (Hupd now2 (Some (default "Cancelled by user"%string reason))); [tauto|].
    unfold terminal. rewrite !elem_of_cons, elem_of_nil.
    destruct E1 as [[E|E] _]; rewrite E; intros [H|[H|[]]]; discriminate H.
  - intros notes. apply (Hupd now1 notes).
Qed.

(** One hour before the start the confirmed trip can no longer be
    cancelled, and neither can a trip in progress. *)
Lemma cancellation_guard_witness :
  (is_ok (cancelBooking 0 0 (Scenario.storeWith confirmed) 10 None).2 = true ->
   cancellable 0 (Scenario.trip confirmed) /\ cancellable 0 (Scenario.trip confirmed))
  /\ cancelBooking Scenario.hour Scenario.hour (Scenario.storeWith confirmed) 10 None
     = (Scenario.storeWith confirmed, Err NotCancellable)
  /\ updateBookingStatus Scenario.hour (Scenario.storeWith in_progress) 10
       {| u_status := Some "cancelled"%string; u_notes := None |}
     = (Scenario.storeWith in_progress, Err NotCancellable).
Proof.
  split; [|split].
  - apply (cancellation_guard 0 0 (Scenario.storeWith confirmed) 10%positive None
             (Scenario.trip confirmed)).
    reflexivity.
  - apply (cancellation_guard Scenario.hour Scenario.hour
             (Scenario.storeWith confirmed) 10%positive None (Scenario.trip confirmed)).
    + reflexivity.
    + intros [[_ H] _]. vm_compute in H. discriminate H.
  - apply (cancellation_guard Scenario.hour Scenario.hour
             (Scenario.storeWith in_progress) 10%positive None (Scenario.trip in_progress)).
    + reflexivity.
    + intros [[H|H] _]; discriminate H.
    + unfold terminal. simpl. rewrite !elem_of_cons, elem_of_nil.
      intros [H|[H|[]]]; discriminate H.
Defined.

(** C10. A successful [updateBookingStatus] changes, in the booking it
    names, at most the status, the notes and the two actual times: the
    vehicle, the customer, the two codes, the scheduled start and end,
    the estimated duration and the cost are what they were; and no other
    booking and no vehicle changes. *)
Theorem update_frame now st id upd st' p :
  updateBookingStatus now st id upd = (st', Ok p) ->
  exists b b',
    bookings st !! id = Some b /\ bookings st' !! id = Some b' /\ p_doc p = b'
    /\ vehicleId b' = vehicleId b /\ customerId b' = customerId b
    /\ fromPincode b' = fromPincode b /\ toPincode b' = toPincode b
    /\ startTime b' = startTime b /\ endTime b' = endTime b
    /\ estimatedRideDurationHours b' = estimatedRideDurationHours b
    /\ estimatedCost b' = estimatedCost b /\ totalDistance b' = totalDistance b
    /\ (forall j, j <> id -> bookings st' !! j = bookings st !! j)
    /\ vehicles st' = vehicles st.
Proof.
  intros H.
  destruct (bookings st !! id) as [b|] eqn:Hb;
    [|unfold updateBookingStatus in H; rewrite Hb in H; discriminate H].
  destruct (updateBookingStatus_cases now st id upd b Hb)
    as [[_ E] | [(_ & _ & _ & E) | [(_ & _ & E) | (t & n & _ & _ & _ & E)]]];
    rewrite E in H; try discriminate H.
  injection H as <- <-.
  exists b, (applyUpdate now b t n). simpl.
  rewrite lookup_insert_eq. repeat split; try reflexivity.
  intros j Hj. now rewrite lookup_insert_ne.
Qed.

(** Starting the confirmed trip stamps the actual start and leaves the
    schedule alone. *)
Lemma update_frame_witness :
  exists b b',
    bookings (Scenario.storeWith confirmed) !! 10%positive = Some b
    /\ status b' = in_progress /\ actualStartTime b' = Some 7
    /\ vehicleId b' = vehicleId b /\ startTime b' = startTime b
    /\ endTime b' = endTime b /\ estimatedCost b' = estimatedCost b.
Proof.
  destruct (update_frame 7 (Scenario.storeWith confirmed) 10%positive
              {| u_status := Some "in_progress"%string; u_notes := None |}
              (updateBookingStatus 7 (Scenario.storeWith confirmed) 10
                 {| u_status := Some "in_progress"%string; u_notes := None |}).1
              (mkPopulated 10 (applyUpdate 7 (Scenario.trip confirmed) in_progress None)
                 (Some Scenario.truck)))
    as (b & b' & Hb & Hb' & Hp & F1 & _ & _ & _ & F5 & F6 & _ & F8 & _);
    [vm_compute; reflexivity|].
  exists b, b'. simpl in Hp. subst b'.
  repeat split; assumption || reflexivity.
Defined.

End Transitions.

(** ** The availability search *)

Section Availability.
Import JS Model Errors VehicleService Spec.

Lemma compareVehicles_le a b : compareVehicles a b <= 0 <-> listed_before a b.
Proof.
  unfold compareVehicles, listed_before, dispatch_le.
  destruct (Z.eqb_spec (capacityKg (a_vehicle a)) (capacityKg (a_vehicle b)));
    simpl; lia.
Qed.

Lemma listed_before_total a b : ~ listed_before a b -> listed_before b a.
Proof. unfold listed_before, dispatch_le. lia. Qed.

Lemma insert_sorted_perm {A} (cmp : A -> A -> Z) x l :
  insert_sorted cmp x l ≡ₚ x :: l.
Proof.
  induction l as [|y l IH]; simpl; [reflexivity|].
  destruct (cmp x y <=? 0); [reflexivity|].
  rewrite IH. apply Permutation_swap.
Qed.

Lemma sort_perm {A} (cmp : A -> A -> Z) l : sort cmp l ≡ₚ l.
Proof.
  induction l as [|x l IH]; simpl; [reflexivity|].
  rewrite insert_sorted_perm. now rewrite IH.
Qed.

Lemma insert_sorted_HdRel x y l :
  listed_before y x -> HdRel listed_before y l ->
  HdRel listed_before y (insert_sorted compareVehicles x l).
Proof.
  intros Hyx Hhd. destruct l as [|z l]; simpl; [now constructor|].
  destruct (compareVehicles x z <=? 0); constructor; [exact Hyx|].
  now inversion Hhd.
Qed.

Lemma insert_sorted_Sorted x l :
  Sorted listed_before l -> Sorted listed_before (insert_sorted compareVehicles x l).
Proof.
  induction 1 as [|y l Hs IH Hhd]; simpl; [repeat constructor|].
  destruct (compareVehicles x y <=? 0) eqn:E.
  - apply Z.leb_le, compareVehicles_le in E.
    constructor; [now constructor|now constructor].
  - constructor; [exact IH|].
    apply insert_sorted_HdRel; [|exact Hhd].
    apply listed_before_total. rewrite <- compareVehicles_le.
    apply Z.leb_gt in E. lia.
Qed.

(** [sort] with the comparison function of the search lists by
    ascending capacity and, among equal capacities, by descending
    creation time. *)
Lemma sort_Sorted l : Sorted listed_before (sort compareVehicles l).
Proof.
  induction l as [|x l IH]; simpl; [constructor|].
  now apply insert_sorted_Sorted.
Qed.

(** The vehicles the query finds are the active ones with the capacity
    and, when a type is asked for, the type. *)
Lemma suitableVehicles_spec st p k v :
  (k, v) ∈ suitableVehicles st p
  <-> vehicles st !! k = Some v
      /\ capacityKg v >= capacityRequired p /\ isActive v = true
      /\ match s_vehicleType p with
         | Some EmptyString | None => True
         | Some t => vehicleType v = t
         end.
Proof.
  unfold suitableVehicles.
  rewrite elem_of_map_to_list, map_lookup_filter_Some.
  unfold vehicleQuery. simpl.
  rewrite !andb_true_iff, Z.geb_le.
  destruct (s_vehicleType p) as [[|c t]|]; rewrite ?String.eqb_eq;
    intuition lia.
Qed.

(** What the search returns: the list is in dispatch order; when some
    vehicle is suitable the result carries their number; when none is,
    it carries no [totalSuitable]. *)
Lemma findAvailableVehicles_result st p r :
  findAvailableVehicles st p = Ok r ->
  Sorted listed_before (availableVehicles r)
  /\ totalSuitable r =
       match suitableVehicles st p with
       | [] => None
       | l => Some (length l)
       end.
Proof.
  unfold findAvailableVehicles.
  destruct (TimeUtils.calculateEstimatedDuration _ _) as [dur|]; [|discriminate].
  simpl bind.
  destruct (TimeUtils.calculateEndTime _ _) as [e|]; [|discriminate].
  simpl bind.
  destruct (suitableVehicles st p) as [|kv l] eqn:E; simpl; intros [= <-]; simpl.
  - split; [constructor|reflexivity].
  - split; [apply sort_Sorted|reflexivity].
Qed.

(** C9 fails on the code: when no vehicle meets the capacity filter,
    [findAvailableVehicles] returns early with an object that has no
    [totalSuitable] field, where the claim has the result always carry
    [totalSuitable], equal to zero in this case. The same search with a
    capacity the truck can carry returns [totalSuitable = 1]. *)
Theorem no_suitable_vehicle_no_total :
  suitableVehicles Scenario.emptyStore Scenario.heavySearch = []
  /\ (exists r, findAvailableVehicles Scenario.emptyStore Scenario.heavySearch = Ok r
        /\ availableVehicles r = [] /\ totalSuitable r = None)
  /\ (exists r, findAvailableVehicles Scenario.emptyStore Scenario.lightSearch = Ok r
        /\ totalSuitable r = Some 1%nat).
Proof.
  split; [vm_compute; reflexivity|].
  split; eexists; (split; [vm_compute; reflexivity|]); repeat split.
Qed.

End Availability.

(** ** Time ranges, end times and validated pincodes *)

Section TimeFacts.
Import JS TimeUtils TimeRanges ValidationUtils Spec.

(** [timeRangesOverlap] fails exactly when a range does not end after
    its start; for two proper ranges it answers true exactly when the
    half-open ranges [start1, end1) and [start2, end2) share an instant;
    and the answer does not depend on the order of the two ranges. *)
Theorem timeRangesOverlap_shared_instant s1 e1 s2 e2 :
  (timeRangesOverlap s1 e1 s2 e2 = Err EndMustBeAfterStart <-> e1 <= s1 \/ e2 <= s2)
  /\ (timeRangesOverlap s1 e1 s2 e2 = Ok true
      <-> s1 < e1 /\ s2 < e2 /\ exists t, (s1 <= t < e1) /\ (s2 <= t < e2))
  /\ timeRangesOverlap s1 e1 s2 e2 = timeRangesOverlap s2 e2 s1 e1.
Proof.
  unfold timeRangesOverlap.
  destruct ((e1 <=? s1) || (e2 <=? s2)) eqn:E.
  - apply orb_true_iff in E.
    replace ((e2 <=? s2) || (e1 <=? s1)) with true
      by (symmetry; apply orb_true_iff; lia).
    split; [split; [intros _; lia|reflexivity]|].
    split; [|reflexivity].
    split; [discriminate|]. intros (H1 & H2 & _). lia.
  - apply orb_false_iff in E.
    replace ((e2 <=? s2) || (e1 <=? s1)) with false
      by (symmetry; apply orb_false_iff; lia).
    split; [split; [discriminate|lia]|].
    split.
    + split.
      * intros [= H]. apply andb_true_iff in H.
        split; [lia|]. split; [lia|]. exists (Z.max s1 s2). lia.
      * intros (H1 & H2 & t & Ht1 & Ht2). f_equal. apply andb_true_iff. lia.
    + f_equal. rewrite andb_comm. f_equal; apply eq_true_iff_eq; lia.
Qed.




(** Whatever two codes the estimator accepts, the window it leads to
    is exact: the end is the start plus a whole number of half hours,
    between 30 minutes and 23 hours. *)
Theorem estimated_window o d dur s :
  calculateEstimatedDuration o d = Ok dur ->
  exists m,
    calculateEndTime s dur = Ok (s + m)
    /\ 1800000 <= m <= 82800000 /\ m mod 1800000 = 0.
Proof.
  unfold calculateEstimatedDuration.
  destruct (parseInt o) as [f|]; [|discriminate].
  destruct (parseInt d) as [t|]; [|discriminate].
  destruct (out_of_range f || out_of_range t); [discriminate|].
  intros [= <-].
  set (k := Z.rem (Z.abs (t - f)) 24).
  assert (Hk : 0 <= k < 24).
  { unfold k. rewrite Z.rem_mod_nonneg by lia. apply Z.mod_pos_bound. lia. }
  rewrite Math_max_half_int by lia.
  destruct (Z.eqb_spec k 0) as [E|E].
  - exists 1800000. split; [|split; [lia|reflexivity]].
    apply calculateEndTime_whole; reflexivity.
  - exists (k * 3600000). split; [|split; [lia|]].
    + apply calculateEndTime_whole.
      * unfold Qlt, inject_Z. simpl. lia.
      * unfold Qeq, inject_Z. simpl. lia.
    + replace (k * 3600000) with (k * 2 * 1800000) by lia. apply Z.mod_mul. lia.
Qed.

(** From 560001 to 560100 the window is three hours. *)
Lemma estimated_window_witness :
  exists m,
    calculateEndTime 7200000 3 = Ok (7200000 + m)
    /\ 1800000 <= m <= 82800000 /\ m mod 1800000 = 0.
Proof.
  apply (estimated_window "560001"%string "560100"%string 3%Q 7200000).
  reflexivity.
Defined.

Lemma trimStart_idem s : trimStart (trimStart s) = trimStart s.
Proof.
  induction s as [|c s IH]; [reflexivity|]. simpl.
  destruct (is_whitespace c) eqn:E; [exact IH|]. simpl. now rewrite E.
Qed.

Lemma parseInt_trimStart s : parseInt s = parseInt (trimStart s).
Proof. unfold parseInt. now rewrite trimStart_idem. Qed.

Lemma list_rev_string s acc :
  list_ascii_of_string (rev_string s acc)
  = rev (list_ascii_of_string s) ++ list_ascii_of_string acc.
Proof.
  revert acc. induction s as [|c s IH]; intros acc; [reflexivity|].
  simpl rev_string. rewrite IH. simpl. now rewrite <- app_assoc.
Qed.

Lemma trimStart_split s :
  exists w, list_ascii_of_string s = w ++ list_ascii_of_string (trimStart s)
            /\ forallb is_whitespace w = true.
Proof.
  induction s as [|c s (w & Hw & Hall)]; [exists []; auto|].
  simpl trimStart. destruct (is_whitespace c) eqn:E.
  - exists (c :: w). simpl. rewrite Hw, E. auto.
  - exists []. auto.
Qed.

(** A string that trims to [c] is [c] between white space. *)
Lemma trim_split s :
  exists w1 w2,
    list_ascii_of_string (trimStart s) = list_ascii_of_string (trim s) ++ w2
    /\ list_ascii_of_string s = w1 ++ list_ascii_of_string (trim s) ++ w2
    /\ forallb is_whitespace w1 = true /\ forallb is_whitespace w2 = true.
Proof.
  destruct (trimStart_split s) as (w1 & H1 & A1).
  destruct (trimStart_split (rev_string (trimStart s) EmptyString)) as (w & H2 & A2).
  rewrite list_rev_string, app_nil_r in H2.
  assert (Ht : list_ascii_of_string (trim s)
               = rev (list_ascii_of_string
                        (trimStart (rev_string (trimStart s) EmptyString))))
    by (unfold trim; now rewrite list_rev_string, app_nil_r).
  assert (H3 : list_ascii_of_string (trimStart s)
               = list_ascii_of_string (trim s) ++ rev w).
  { rewrite Ht, <- rev_app_distr, <- H2. now rewrite rev_involutive. }
  exists w1, (rev w). split; [exact H3|]. split; [now rewrite H1, H3|].
  split; [exact A1|]. rewrite forallb_forall in A2 |- *.
  intros x Hx. apply A2. now apply in_rev.
Qed.

Lemma whitespace_not_digit c : is_whitespace c = true -> is_digit c = false.
Proof.
  destruct c as [[] [] [] [] [] [] [] []]; vm_compute; intros H;
    try discriminate H; reflexivity.
Qed.

Lemma digits_prefix_app l w :
  forallb is_digit l = true -> forallb is_whitespace w = true ->
  digits_prefix (string_of_list_ascii (l ++ w)) = List.map digit_value l.
Proof.
  intros Hl Hw. induction l as [|c l IH]; simpl.
  - destruct w as [|c w]; [reflexivity|]. simpl.
    simpl in Hw. apply andb_true_iff in Hw as [Hc _].
    now rewrite (whitespace_not_digit c Hc).
  - simpl in Hl. apply andb_true_iff in Hl as [Hc Hl].
    rewrite Hc. f_equal. now apply IH.
Qed.

(** [parseInt] reads a padded string of digits as it reads the digits. *)
Lemma parseInt_padded s :
  trim s <> EmptyString ->
  forallb is_digit (list_ascii_of_string (trim s)) = true ->
  parseInt s = Some (code_value (trim s)).
Proof.
  intros Hne Hdig.
  destruct (trim_split s) as (w1 & w2 & Ht & _ & _ & A2).
  rewrite parseInt_trimStart.
  rewrite <- (string_of_list_ascii_of_string (trimStart s)), Ht.
  destruct (list_ascii_of_string (trim s)) as [|c l] eqn:El.
  - exfalso. apply Hne.
    rewrite <- (string_of_list_ascii_of_string (trim s)), El. reflexivity.
  - pose proof Hdig as Hd. simpl in Hd. apply andb_true_iff in Hd as [Hc Hl].
    simpl string_of_list_ascii. rewrite (parseInt_digit c _ Hc).
    rewrite (digits_prefix_app l w2 Hl A2).
    unfold code_value. now rewrite El.
Qed.

Lemma six_digits_value s :
  BookingService.six_digits s = true ->
  s <> EmptyString
  /\ forallb is_digit (list_ascii_of_string s) = true
  /\ 0 <= code_value s <= 999999.
Proof.
  unfold BookingService.six_digits. rewrite andb_true_iff.
  intros [Hlen Hdig]. apply Nat.eqb_eq in Hlen.
  split; [intros ->; discriminate Hlen|]. split; [exact Hdig|].
  pose proof (parseInt_digits s) as Hp.
  assert (Hne : s <> EmptyString) by (intros ->; discriminate Hlen).
  specialize (Hp Hne Hdig).
  unfold code_value.
  assert (HF : Forall (fun d => 0 <= d <= 9)
                 (List.map digit_value (list_ascii_of_string s))).
  { rewrite <- (digits_prefix_all s Hdig). apply Forall_digits_prefix. }
  pose proof (mathInt_bound _ HF) as B.
  rewrite length_map in B.
  assert (HL : length (list_ascii_of_string s) = 6%nat).
  { rewrite <- Hlen. clear. induction s; simpl; congruence. }
  rewrite HL in B. change (10 ^ Z.of_nat 6) with 1000000 in B. lia.
Qed.

Lemma validatePincode_Ok p n :
  validatePincode p = Ok n -> n = trim p /\ valid_code n = true.
Proof.
  unfold validatePincode.
  destruct (BookingService.six_digits (trim p)) eqn:E6.
  - destruct (six_digits_value _ E6) as (Hne & Hdig & Hv).
    rewrite (parseInt_digits _ Hne Hdig).
    destruct (trim p) as [|c r] eqn:Et; [congruence|]. simpl negb. cbv iota.
    destruct ((code_value (String c r) <? 100000) || (code_value (String c r) >? 999999)) eqn:Er;
      [discriminate|].
    intros [= <-]. split; [reflexivity|].
    apply orb_false_iff in Er. unfold valid_code.
    unfold BookingService.six_digits in E6.
    apply andb_true_iff in E6 as [-> ->]. simpl. rewrite andb_true_iff. lia.
  - destruct (trim p); simpl negb; cbv iota; discriminate.
Qed.

(** [validatePincode] accepts a string exactly when, trimmed, it is a
    valid six-digit code, and hands back the trimmed string. Its range
    check fires only for six digits that start with zero: the upper
    bound never does. *)
Theorem validatePincode_accepts p :
  (forall n, validatePincode p = Ok n <-> n = trim p /\ valid_code n = true)
  /\ (validatePincode p = Err NotInRange
      <-> BookingService.six_digits (trim p) = true /\ code_value (trim p) < 100000).
Proof.
  unfold validatePincode.
  destruct (BookingService.six_digits (trim p)) eqn:E6.
  - destruct (six_digits_value _ E6) as (Hne & Hdig & Hv).
    rewrite (parseInt_digits _ Hne Hdig).
    assert (Hvc : valid_code (trim p) = true <-> 100000 <= code_value (trim p)).
    { unfold valid_code. unfold BookingService.six_digits in E6.
      apply andb_true_iff in E6 as [-> ->]. simpl. rewrite andb_true_iff. lia. }
    destruct (trim p) as [|c r] eqn:Et; [congruence|]. simpl negb. cbv iota.
    destruct ((code_value (String c r) <? 100000) || (code_value (String c r) >? 999999)) eqn:Er.
    + apply orb_true_iff in Er. split.
      * intros n. split; [discriminate|]. intros [-> Hn]. apply Hvc in Hn. lia.
      * split; [intros _; split; [reflexivity|lia]|reflexivity].
    + apply orb_false_iff in Er. split.
      * intros n. split.
        -- intros [= <-]. split; [reflexivity|]. apply Hvc. lia.
        -- intros [-> _]. reflexivity.
      * split; [discriminate|]. intros [_ H]. lia.
  - assert (Hvc : valid_code (trim p) = false).
    { unfold valid_code. unfold BookingService.six_digits in E6. now rewrite E6. }
    destruct (trim p) as [|c r] eqn:Et; simpl negb; cbv iota.
    + split; [|split; [discriminate|intros [H _]; discriminate H]].
      intros n. split; [discriminate|]. intros [-> H]. congruence.
    + split; [|split; [discriminate|intros [H _]; discriminate H]].
      intros n. split; [discriminate|]. intros [-> H]. congruence.
Qed.

(** Codes that passed [validatePincode] never make the estimator fail,
    and the estimate of the codes as they were typed (padded with white
    space or not) is the estimate of the normalised codes. *)
Theorem validated_pincodes_estimate o d no nd :
  validatePincode o = Ok no -> validatePincode d = Ok nd ->
  exists r,
    calculateEstimatedDuration o d = Ok r
    /\ calculateEstimatedDuration no nd = Ok r.
Proof.
  intros Ho Hd.
  assert (Hgen : forall p n, validatePincode p = Ok n ->
            parseInt p = Some (code_value n) /\ parseInt n = Some (code_value n)
            /\ out_of_range (code_value n) = false).
  { intros p n Hp. apply validatePincode_Ok in Hp as [-> Hv].
    destruct (valid_code_parse _ Hv) as [P R]. split; [|split; assumption].
    unfold valid_code in Hv. rewrite !andb_true_iff in Hv.
    destruct Hv as [[[Hlen Hdig] _] _].
    apply parseInt_padded; [|exact Hdig]. intros E. rewrite E in Hlen. discriminate Hlen. }
  destruct (Hgen o no Ho) as (P1 & P2 & R1). destruct (Hgen d nd Hd) as (P3 & P4 & R2).
  unfold calculateEstimatedDuration. rewrite P1, P2, P3, P4, R1, R2. simpl.
  eexists. split; reflexivity.
Qed.

(** Two codes typed with surrounding blanks. *)
Lemma validated_pincodes_estimate_witness :
  exists r,
    calculateEstimatedDuration " 400001" "400002 " = Ok r
    /\ calculateEstimatedDuration "400001" "400002" = Ok r.
Proof.
  apply (validated_pincodes_estimate " 400001"%string "400002 "%string
           "400001"%string "400002"%string); reflexivity.
Defined.

End TimeFacts.

(** ** Conflicts between bookings *)

Section Conflicts.
Import JS Model Errors BookingService BookingServiceMore TimeRanges Session Spec.

Lemma elem_findOverlappingBookings coll vid s e ex k b :
  (k, b) ∈ findOverlappingBookings coll vid s e ex
  <-> coll !! k = Some b /\ overlap_query vid s e ex (k, b) = true.
Proof.
  unfold findOverlappingBookings.
  now rewrite elem_of_map_to_list, map_lookup_filter_Some.
Qed.

(** The conflict query finds the bookings of the vehicle that the
    instance method [overlapsWithTimeRange] accepts, except the
    completed ones and the excluded one; and on proper ranges the method
    is [timeRangesOverlap] for a booking that is not cancelled. *)
Theorem query_and_instance_method coll vid s e ex k b :
  ((k, b) ∈ findOverlappingBookings coll vid s e ex
   <-> coll !! k = Some b /\ vehicleId b = vid
       /\ overlapsWithTimeRange b s e = true
       /\ status b <> completed /\ ex <> Some k)
  /\ (startTime b < endTime b -> s < e ->
      (overlapsWithTimeRange b s e = true
       <-> status b <> cancelled
           /\ timeRangesOverlap (startTime b) (endTime b) s e = Ok true)).
Proof.
  split.
  - rewrite elem_findOverlappingBookings.
    unfold overlap_query, overlapsWithTimeRange.
    rewrite !andb_true_iff, !negb_true_iff, orb_false_iff,
      !bool_decide_eq_false, bool_decide_eq_true.
    destruct ex as [x|].
    + rewrite negb_true_iff, bool_decide_eq_false.
      split; [intros (? & ((((? & ? & ?) & ?) & ?) & ?))
             |intros (? & ? & ((? & ?) & ?) & ? & Hx)].
      * repeat split; auto. intros [= ->]. contradiction.
      * repeat split; auto. intros ->. now apply Hx.
    + split; [intros (? & ((((? & ? & ?) & ?) & ?) & ?))
             |intros (? & ? & ((? & ?) & ?) & ? & Hx)];
        repeat split; auto; discriminate.
  - intros Hb Hw. unfold overlapsWithTimeRange, timeRangesOverlap.
    replace ((endTime b <=? startTime b) || (e <=? s)) with false
      by (symmetry; apply orb_false_iff; lia).
    rewrite !andb_true_iff, negb_true_iff, bool_decide_eq_false.
    split.
    + intros [[Hs H1] H2]. split; [exact Hs|]. now rewrite H1, H2.
    + intros [Hs [= H]]. apply andb_true_iff in H as [H1 H2]. auto.
Qed.

(** In a store without double bookings a live booking conflicts with
    itself only: checked against its own window it is the one conflict
    reported, and none is when its own id is excluded. *)
Theorem live_booking_conflicts_with_itself_only st k b :
  no_double_booking terminal (bookings st) ->
  bookings st !! k = Some b -> status b ∉ terminal -> startTime b < endTime b ->
  checkBookingConflicts st (vehicleId b) (startTime b) (endTime b) (Some k) = []
  /\ (forall p, p ∈ checkBookingConflicts st (vehicleId b) (startTime b) (endTime b) None
               <-> p = mkPopulated k b (vehicles st !! vehicleId b)).
Proof.
  intros Hinv Hkb Hst Hwin.
  assert (Hself : overlap_query (vehicleId b) (startTime b) (endTime b) None (k, b) = true).
  { apply overlap_query_blocks. unfold blocks, overlap. repeat split; auto; lia. }
  assert (Hother : forall k' b', bookings st !! k' = Some b' ->
            overlap_query (vehicleId b) (startTime b) (endTime b) None (k', b') = true ->
            k' = k /\ b' = b).
  { intros k' b' Hk' Hq. apply overlap_query_blocks in Hq as (Hv & Hs' & Hov).
    destruct (decide (k' = k)) as [->|Hne]; [split; congruence|].
    exfalso. exact (Hinv k' k b' b Hne Hk' Hkb Hv Hs' Hst Hov). }
  unfold checkBookingConflicts. split.
  - replace (findOverlappingBookings (bookings st) (vehicleId b) (startTime b)
               (endTime b) (Some k)) with (@nil (ObjectId * Booking)); [reflexivity|].
    symmetry. apply findOverlappingBookings_nil. intros k' b' Hk'.
    destruct (overlap_query _ _ _ (Some k) (k', b')) eqn:E; [|reflexivity].
    pose proof (overlap_query_exclude _ _ _ _ _ _ E) as E'.
    destruct (Hother k' b' Hk' E') as [-> ->].
    unfold overlap_query in E. rewrite !andb_true_iff in E.
    destruct E as [_ E]. rewrite negb_true_iff, bool_decide_eq_false in E.
    contradiction.
  - intros p. rewrite list_elem_of_In, in_map_iff. split.
    + intros ([k' b'] & <- & Hin). apply list_elem_of_In in Hin.
      apply elem_findOverlappingBookings in Hin as [Hk' Hq].
      destruct (Hother k' b' Hk' Hq) as [-> ->]. reflexivity.
    + intros ->. exists (k, b). split; [reflexivity|].
      apply list_elem_of_In, elem_findOverlappingBookings. auto.
Qed.

(** The confirmed trip of the truck, alone in the store. *)
Lemma live_booking_conflicts_with_itself_only_witness :
  checkBookingConflicts (Scenario.storeWith confirmed) 1
    (2 * Scenario.hour) (4 * Scenario.hour) (Some 10%positive) = []
  /\ (forall p, p ∈ checkBookingConflicts (Scenario.storeWith confirmed) 1
                      (2 * Scenario.hour) (4 * Scenario.hour) None
               <-> p = mkPopulated 10 (Scenario.trip confirmed) (Some Scenario.truck)).
Proof.
  apply (live_booking_conflicts_with_itself_only (Scenario.storeWith confirmed)
           10%positive (Scenario.trip confirmed)).
  - intros i j b1 b2 Hij H1 H2. simpl in H1, H2.
    apply lookup_singleton_Some in H1 as [<- _].
    apply lookup_singleton_Some in H2 as [<- _]. contradiction.
  - reflexivity.
  - unfold terminal. simpl. rewrite !elem_of_cons, elem_of_nil.
    intros [H|[H|[]]]; discriminate H.
  - vm_compute. reflexivity.
Defined.

Lemma padStart6_six_digits s : six_digits s = true -> padStart6 s = s.
Proof.
  unfold six_digits, padStart6. rewrite andb_true_iff. intros [Hlen _].
  apply Nat.eqb_eq in Hlen. destruct s; [reflexivity|]. now rewrite Hlen.
Qed.

Lemma schema_valid_well_formed now doc :
  schema_valid now doc = true -> well_formed doc /\ normalize doc = doc.
Proof.
  intros E. unfold schema_valid in E. rewrite !andb_true_iff in E.
  destruct E as ((((((((((C1 & C2) & P1) & P2) & S1) & E1) & D1) & D2) & _) & _) & _).
  split.
  - unfold well_formed. rewrite <- !Qle_bool_iff. repeat split; auto; lia.
  - unfold normalize. rewrite (padStart6_six_digits _ P1), (padStart6_six_digits _ P2).
    now destruct doc.
Qed.

(** A document that passes the schema's validators is stored as it is:
    the pincode padding of the pre-save hook changes nothing. It ends
    after it starts, starts no more than five minutes before the clock,
    and has six-digit codes and a duration between 0.1 and 168 hours. *)
Theorem validated_document_unchanged now doc doc' :
  saveValidate now doc = Ok doc' ->
  doc' = doc /\ well_formed doc' /\ startTime doc' >= now - 300000
  /\ (1 <= String.length (customerId doc') <= 100)%nat.
Proof.
  unfold saveValidate. destruct (schema_valid now doc) eqn:E; [|discriminate].
  intros [= <-].
  destruct (schema_valid_well_formed now doc E) as [Hwf Hn].
  rewrite Hn. split; [reflexivity|]. split; [exact Hwf|].
  unfold schema_valid in E. rewrite !andb_true_iff in E.
  destruct E as ((((((((((C1 & C2) & _) & _) & S1) & _) & _) & _) & _) & _) & _).
  apply Nat.leb_le in C1, C2. lia.
Qed.

(** The document of a request for the truck, one hour from T+2h. *)
Lemma validated_document_unchanged_witness :
  let doc := newBooking (Scenario.request 1 (2 * Scenario.hour) None None)
               (3 * Scenario.hour) 1 in
  normalize doc = doc /\ well_formed (normalize doc)
  /\ startTime (normalize doc) >= 0 - 300000
  /\ (1 <= String.length (customerId (normalize doc)) <= 100)%nat.
Proof.
  apply (validated_document_unchanged 0
           (newBooking (Scenario.request 1 (2 * Scenario.hour) None None)
              (3 * Scenario.hour) 1)).
  reflexivity.
Defined.

End Conflicts.

(** ** From the search to the booking *)

Section SearchAndCreate.
Import JS Model Errors BookingService VehicleService VehicleServiceMore Spec.

Lemma loadVehicle_Ok st data vehicle :
  loadVehicle st data = Ok vehicle
  <-> vehicles st !! d_vehicleId data = Some vehicle /\ isActive vehicle = true.
Proof.
  unfold loadVehicle. destruct (vehicles st !! d_vehicleId data) as [v|].
  - destruct (isActive v) eqn:E; split.
    + intros [= <-]. auto.
    + intros [[= <-] _]. reflexivity.
    + discriminate.
    + intros [[= <-] H]. congruence.
  - split; [discriminate|]. intros [H _]. discriminate H.
Qed.

Lemma resolveWindow_err data e :
  resolveWindow data = Err e -> exists c, e = Failed c.
Proof.
  unfold resolveWindow.
  set (estimate := map_err _ (TimeUtils.calculateEstimatedDuration _ _)).
  assert (Hest : forall x, estimate = Err x -> exists c, x = Failed c).
  { unfold estimate. destruct (TimeUtils.calculateEstimatedDuration _ _); simpl;
      [discriminate|]. intros x [= <-]. eauto. }
  set (first := match d_estimatedRideDurationHours data with
                | Some q => if truthy q then Ok q else estimate
                | None => estimate
                end).
  assert (Hfirst : forall x, first = Err x -> exists c, x = Failed c).
  { unfold first. destruct (d_estimatedRideDurationHours data) as [q|];
      [destruct (truthy q)|]; auto; discriminate. }
  destruct first as [q|x]; simpl bind; [|intros [= <-]; now apply Hfirst].
  destruct (d_endTime data) as [e0|]; simpl; [discriminate|].
  destruct (TimeUtils.calculateEndTime _ _); simpl; [discriminate|].
  intros [= <-]. eauto.
Qed.

(** [createBooking] answers [BookingConflict] exactly when it reaches
    the overlap check and the check finds a booking. *)
Lemma createBooking_conflict_iff now newId st data :
  (createBooking now newId st data).2 = Err BookingConflict
  <-> exists vehicle dur e,
        loadVehicle st data = Ok vehicle /\ resolveWindow data = Ok (dur, e)
        /\ checkOverlap st data e = Err BookingConflict.
Proof.
  unfold createBooking.
  destruct (loadVehicle st data) as [vehicle|e1] eqn:E1; simpl bind.
  2:{ split; [|intros (? & ? & ? & H & _); discriminate H].
      simpl. intros [= ->]. unfold loadVehicle in E1.
      destruct (vehicles st !! d_vehicleId data) as [v|];
        [destruct (isActive v)|]; discriminate E1. }
  destruct (resolveWindow data) as [[dur e]|e2] eqn:E2; simpl bind.
  2:{ split; [|intros (? & ? & ? & _ & H & _); discriminate H].
      simpl. intros [= ->]. apply resolveWindow_err in E2 as [c E2].
      discriminate E2. }
  destruct (checkOverlap_cases st data e) as [Hc|Hc]; rewrite Hc; simpl bind.
  - split; [|intros (? & ? & ? & _ & [= <- <-] & H); congruence].
    destruct (saveValidate _ _) as [doc|e4] eqn:E4; simpl bind;
      [|apply saveValidate_err in E4 as [c ->]; discriminate].
    destruct (saveVehicle st doc) as [[]|e5] eqn:E5; simpl bind;
      [|apply saveVehicle_err in E5 as [c ->]; discriminate].
    destruct (saveOverlap st newId doc) as [[]|e6] eqn:E6; simpl bind;
      [|apply saveOverlap_err in E6 as [c ->]; discriminate].
    destruct (insertDoc st newId doc) as [st'|e7] eqn:E7; simpl;
      [|apply insertDoc_err in E7 as [c ->]]; discriminate.
  - split; [|reflexivity]. intros _. exists vehicle, dur, e. auto.
Qed.

(** After a successful [createBooking], a request for the same vehicle
    is refused with [BookingConflict] exactly when its window overlaps
    the new booking or the request was already in conflict before: a
    booking blocks the windows it overlaps and no others. *)
Theorem created_booking_blocks_overlaps now1 id1 st d1 st1 p now2 id2 d2 dur2 e2 :
  createBooking now1 id1 st d1 = (st1, Ok (Some p)) ->
  d_vehicleId d2 = vehicleId (p_doc p) ->
  resolveWindow d2 = Ok (dur2, e2) ->
  ((createBooking now2 id2 st1 d2).2 = Err BookingConflict
   <-> overlap (startTime (p_doc p)) (endTime (p_doc p)) (d_startTime d2) e2
       \/ (createBooking now2 id2 st d2).2 = Err BookingConflict).
Proof.
  intros Hc Hv Hw.
  destruct (createBooking_cases now1 id1 st d1)
    as [(e & E) | (vehicle & dur & w & doc & L1 & W1 & C1 & V1 & N1 & E)];
    rewrite E in Hc; [discriminate Hc|].
  injection Hc as <- <-. simpl in Hv |- *.
  destruct (saveValidate_fields _ _ _ _ _ V1) as (F1 & F2 & F3 & _ & F5).
  apply loadVehicle_Ok in L1 as [L1 A1].
  assert (Hload : forall s, vehicles s = vehicles st -> loadVehicle s d2 = Ok vehicle).
  { intros s Hs. apply loadVehicle_Ok. rewrite Hs, Hv, F1. auto. }
  rewrite !createBooking_conflict_iff. split.
  - intros (v' & dur' & e' & _ & W' & C').
    rewrite Hw in W'. injection W' as <- <-.
    apply checkOverlap_conflict in C' as (k & b & Hk & Hb). simpl in Hk.
    rewrite lookup_insert in Hk. destruct (decide (id1 = k)) as [->|Hne].
    + injection Hk as <-. left. destruct Hb as (_ & _ & Hov). exact Hov.
    + right. exists vehicle, dur2, e2. split; [now apply Hload|]. split; [exact Hw|].
      apply checkOverlap_conflict. eauto.
  - intros [Hov | (v' & dur' & e' & _ & W' & C')].
    + exists vehicle, dur2, e2. split; [now apply Hload|]. split; [exact Hw|].
      apply checkOverlap_conflict. exists id1, doc. simpl.
      rewrite lookup_insert_eq. split; [reflexivity|].
      unfold blocks, terminal. rewrite F5, !elem_of_cons, elem_of_nil.
      split; [symmetry; exact Hv|split; [|exact Hov]].
      intros [H|[H|[]]]; discriminate H.
    + rewrite Hw in W'. injection W' as <- <-.
      exists vehicle, dur2, e2. split; [now apply Hload|]. split; [exact Hw|].
      apply checkOverlap_conflict in C' as (k & b & Hk & Hb).
      apply checkOverlap_conflict. exists k, b. split; [|exact Hb]. simpl.
      rewrite lookup_insert_ne; [exact Hk|]. intros ->. congruence.
Qed.

(** The truck is booked from T+2h to T+3h; a request from T+2h30 is
    refused, since the windows overlap. *)
Lemma created_booking_blocks_overlaps_witness :
  exists st1,
    (createBooking 0 11 Scenario.emptyStore
       (Scenario.request 1 (2 * Scenario.hour) None None)).1 = st1
    /\ ((createBooking 0 12 st1
           (Scenario.request 1 (2 * Scenario.hour + 1800000) None None)).2
          = Err BookingConflict
        <-> overlap (2 * Scenario.hour) (3 * Scenario.hour)
              (2 * Scenario.hour + 1800000) (3 * Scenario.hour + 1800000)
            \/ (createBooking 0 12 Scenario.emptyStore
                  (Scenario.request 1 (2 * Scenario.hour + 1800000) None None)).2
               = Err BookingConflict).
Proof.
  eexists. split; [reflexivity|].
  apply (created_booking_blocks_overlaps 0 11%positive Scenario.emptyStore
           (Scenario.request 1 (2 * Scenario.hour) None None) _
           (mkPopulated 11
              (newBooking (Scenario.request 1 (2 * Scenario.hour) None None)
                 (3 * Scenario.hour) 1)
              (Some Scenario.truck))
           0 12%positive
           (Scenario.request 1 (2 * Scenario.hour + 1800000) None None)
           1%Q (3 * Scenario.hour + 1800000)).
  - vm_compute. reflexivity.
  - reflexivity.
  - vm_compute. reflexivity.
Defined.

Lemma insert_sorted_key_Sorted {A} (key : A -> Z) x l :
  Sorted (fun a b => key a <= key b) l ->
  Sorted (fun a b => key a <= key b) (insert_sorted (fun a b => key a - key b) x l).
Proof.
  induction 1 as [|y l Hs IH Hhd]; simpl; [repeat constructor|].
  destruct (key x - key y <=? 0) eqn:E.
  - apply Z.leb_le in E. constructor; [now constructor|constructor; lia].
  - apply Z.leb_gt in E. constructor; [exact IH|].
    destruct l as [|z l]; simpl; [constructor; lia|].
    destruct (key x - key z <=? 0); constructor; [lia|now inversion Hhd].
Qed.

(** [sort] by the difference of a key lists by ascending key. *)
Lemma sort_key_Sorted {A} (key : A -> Z) l :
  Sorted (fun a b => key a <= key b) (sort (fun a b => key a - key b) l).
Proof.
  induction l as [|x l IH]; simpl; [constructor|].
  now apply insert_sorted_key_Sorted.
Qed.

Lemma findAvailableVehicles_Ok st p r :
  findAvailableVehicles st p = Ok r ->
  exists dur e,
    TimeUtils.calculateEstimatedDuration (s_fromPincode p) (s_toPincode p) = Ok dur
    /\ TimeUtils.calculateEndTime (s_startTime p) dur = Ok e
    /\ r_estimatedRideDurationHours r = dur /\ r_endTime r = e
    /\ availableVehicles r
       = sort compareVehicles
           (omap id (List.map (availability st p dur e) (suitableVehicles st p))).
Proof.
  unfold findAvailableVehicles.
  destruct (TimeUtils.calculateEstimatedDuration _ _) as [dur|] eqn:E1; [|discriminate].
  simpl bind.
  destruct (TimeUtils.calculateEndTime _ _) as [e|] eqn:E2; [|discriminate].
  simpl bind. intros H. exists dur, e.
  split; [reflexivity|]. split; [exact E2|].
  destruct (suitableVehicles st p) as [|kv l]; simpl in H; injection H as <-;
    repeat split; reflexivity.
Qed.

Lemma availability_Some st p dur e kv av :
  availability st p dur e kv = Some av ->
  findOverlappingBookings (bookings st) kv.1 (s_startTime p) e None = []
  /\ a_id av = kv.1 /\ a_vehicle av = kv.2
  /\ a_estimatedRideDurationHours av = dur /\ estimatedEndTime av = e.
Proof.
  unfold availability.
  destruct (findOverlappingBookings _ _ _ _ _); [|discriminate].
  intros [= <-]. auto.
Qed.

Lemma elem_available st p dur e av :
  av ∈ sort compareVehicles
         (omap id (List.map (availability st p dur e) (suitableVehicles st p)))
  <-> exists kv, kv ∈ suitableVehicles st p /\ availability st p dur e kv = Some av.
Proof.
  rewrite sort_perm, list_elem_of_omap. split.
  - intros (o & Ho & Hid). simpl in Hid. subst o.
    apply list_elem_of_In, in_map_iff in Ho as (kv & Hkv & Hin).
    exists kv. split; [now apply list_elem_of_In|exact Hkv].
  - intros (kv & Hin & Hkv). exists (Some av). split; [|reflexivity].
    apply list_elem_of_In, in_map_iff. exists kv. split; [exact Hkv|].
    now apply list_elem_of_In.
Qed.

Lemma suitable_canHandleCapacity st p k v :
  (k, v) ∈ suitableVehicles st p ->
  vehicles st !! k = Some v /\ canHandleCapacity v (capacityRequired p) = true.
Proof.
  intros H. apply suitableVehicles_spec in H as (Hl & Hc & Ha & _).
  split; [exact Hl|]. unfold canHandleCapacity. rewrite Ha. simpl.
  apply Z.geb_le. lia.
Qed.


Lemma map_is_fmap {A B} (f : A -> B) l : List.map f l = f <$> l.
Proof. induction l as [|x l IH]; simpl; [reflexivity|]. now rewrite IH. Qed.




Lemma overlapping_nil_exclude coll vid s e x :
  findOverlappingBookings coll vid s e None = [] ->
  findOverlappingBookings coll vid s e (Some x) = [].
Proof.
  rewrite !findOverlappingBookings_nil. intros H k b Hkb.
  destruct (overlap_query vid s e (Some x) (k, b)) eqn:E; [|reflexivity].
  apply overlap_query_exclude in E. rewrite (H k b Hkb) in E. discriminate E.
Qed.

(** A vehicle the search lists can be booked for the searched route and
    start: on the same store [createBooking] passes the vehicle and the
    overlap checks and, with a fresh id and a document the schema
    accepts, creates the booking with the window the search announced. *)
Theorem listed_vehicle_can_be_booked st p r av now newId data :
  findAvailableVehicles st p = Ok r -> av ∈ availableVehicles r ->
  d_vehicleId data = a_id av ->
  d_fromPincode data = s_fromPincode p -> d_toPincode data = s_toPincode p ->
  d_startTime data = s_startTime p ->
  d_endTime data = None -> d_estimatedRideDurationHours data = None ->
  bookings st !! newId = None ->
  schema_valid now (newBooking data (estimatedEndTime av)
                      (a_estimatedRideDurationHours av)) = true ->
  exists doc,
    createBooking now newId st data
    = ({| vehicles := vehicles st; bookings := <[newId := doc]> (bookings st) |},
       Ok (Some (mkPopulated newId doc (Some (a_vehicle av)))))
    /\ startTime doc = s_startTime p /\ endTime doc = estimatedEndTime av
    /\ estimatedRideDurationHours doc = a_estimatedRideDurationHours av
    /\ status doc = confirmed.
Proof.
  intros H Hav Hv Hf Ht Hs He Hd Hnew Hvalid.
  destruct (findAvailableVehicles_Ok st p r H) as (dur & e & Hdur & Hend & _ & _ & Hl).
  rewrite Hl in Hav. apply elem_available in Hav as ([k v] & Hin & Hkv).
  apply availability_Some in Hkv as (Hfree & E1 & E2 & E3 & E4). simpl in *.
  rewrite E1 in Hv. rewrite E2, E3, E4 in *.
  destruct (suitable_canHandleCapacity st p k v Hin) as [Hlook Hcan].
  unfold canHandleCapacity in Hcan. apply andb_true_iff in Hcan as [Hact _].
  assert (Hload : loadVehicle st data = Ok v)
    by (apply loadVehicle_Ok; rewrite Hv; auto).
  assert (Hres : resolveWindow data = Ok (dur, e)).
  { unfold resolveWindow. rewrite Hd, He, Hf, Ht, Hs, Hdur. simpl.
    now rewrite Hend. }
  assert (Hchk : checkOverlap st data e = Ok tt).
  { unfold checkOverlap. now rewrite Hv, Hs, Hfree. }
  set (doc0 := newBooking data e dur) in *.
  assert (Hsv : saveValidate now doc0 = Ok (normalize doc0))
    by (unfold saveValidate; now rewrite Hvalid).
  destruct (saveValidate_fields _ _ _ _ _ Hsv) as (F1 & F2 & F3 & F4 & F5).
  exists (normalize doc0).
  unfold createBooking. rewrite Hload, Hres. simpl bind. rewrite Hchk. simpl bind.
  fold doc0. rewrite Hsv. simpl bind.
  assert (Hveh : saveVehicle st (normalize doc0) = Ok tt).
  { unfold saveVehicle. rewrite F5, F1, Hv, Hlook, Hact. reflexivity. }
  assert (Hov : saveOverlap st newId (normalize doc0) = Ok tt).
  { unfold saveOverlap. rewrite F5, F1, F2, F3, Hv, Hs.
    now rewrite (overlapping_nil_exclude _ _ _ _ newId Hfree). }
  rewrite Hveh, Hov. simpl bind. unfold insertDoc. rewrite Hnew.
  unfold readBack. simpl. rewrite lookup_insert_eq. simpl.
  rewrite Hv, Hlook. repeat split; assumption.
Qed.

(** The truck, found by the light search, is booked for the searched
    route. *)
Lemma listed_vehicle_can_be_booked_witness :
  exists doc,
    createBooking 0 11 Scenario.emptyStore
      (mkBookingData 1 "customer2" "110001" "110025" (2 * Scenario.hour)
         None None None None None None)
    = ({| vehicles := Scenario.fleet; bookings := <[11%positive := doc]> ∅ |},
       Ok (Some (mkPopulated 11 doc (Some Scenario.truck))))
    /\ startTime doc = 2 * Scenario.hour
    /\ endTime doc = 2 * Scenario.hour + 1800000
    /\ estimatedRideDurationHours doc = (1 # 2)%Q
    /\ status doc = confirmed.
Proof.
  apply (listed_vehicle_can_be_booked Scenario.emptyStore Scenario.lightSearch
           {| availableVehicles :=
                [mkAvailable 1 Scenario.truck (1 # 2) None (2 * Scenario.hour + 1800000)];
              r_estimatedRideDurationHours := 1 # 2;
              totalAvailable := Some 1%nat;
              totalSuitable := Some 1%nat;
              r_endTime := 2 * Scenario.hour + 1800000;
              message := None |}
           (mkAvailable 1 Scenario.truck (1 # 2) None (2 * Scenario.hour + 1800000))
           0 11%positive
           (mkBookingData 1 "customer2" "110001" "110025" (2 * Scenario.hour)
              None None None None None None));
    try reflexivity.
  all: first [ left | vm_compute; reflexivity ].
Defined.

(** Without a type filter, the suitable vehicles of the search are the
    vehicles for which [canHandleCapacity] holds, and they are the
    vehicles [findByMinCapacity] returns, which it lists by ascending
    capacity. *)
Theorem suitable_is_canHandleCapacity st p :
  s_vehicleType p = None ->
  (forall k v, (k, v) ∈ suitableVehicles st p
     <-> vehicles st !! k = Some v
         /\ canHandleCapacity v (capacityRequired p) = true)
  /\ (forall kv, kv ∈ suitableVehicles st p
       <-> kv ∈ findByMinCapacity (vehicles st) (capacityRequired p))
  /\ Sorted (fun a b => capacityKg a.2 <= capacityKg b.2)
       (findByMinCapacity (vehicles st) (capacityRequired p)).
Proof.
  intros Hty. split; [|split].
  - intros k v. rewrite suitableVehicles_spec, Hty. unfold canHandleCapacity.
    rewrite andb_true_iff, Z.geb_le. intuition lia.
  - intros [k v]. unfold findByMinCapacity. rewrite sort_perm.
    unfold suitableVehicles.
    rewrite !elem_of_map_to_list, !map_lookup_filter_Some.
    unfold vehicleQuery. rewrite Hty. simpl. now rewrite andb_true_r.
  - unfold findByMinCapacity, byCapacity.
    apply (sort_key_Sorted (fun a : ObjectId * Vehicle => capacityKg a.2)).
Qed.

(** The fleet and a search for 3000 kg. *)
Lemma suitable_is_canHandleCapacity_witness :
  ((1%positive, Scenario.truck) ∈ suitableVehicles Scenario.emptyStore Scenario.lightSearch
   <-> vehicles Scenario.emptyStore !! 1%positive = Some Scenario.truck
       /\ canHandleCapacity Scenario.truck 3000 = true)
  /\ Sorted (fun a b => capacityKg a.2 <= capacityKg b.2)
       (findByMinCapacity Scenario.fleet 3000).
Proof.
  destruct (suitable_is_canHandleCapacity Scenario.emptyStore Scenario.lightSearch eq_refl)
    as (H1 & _ & H3).
  split; [apply H1|exact H3].
Defined.

End SearchAndCreate.

(** ** The life of a booking *)

Section Lifecycle.
Import JS Model Errors BookingService BookingServiceMore VehicleServiceMore Session Spec.

Lemma cancelBooking_unfold now1 now2 st id reason b :
  bookings st !! id = Some b ->
  cancelBooking now1 now2 st id reason
  = if canBeCancelled now1 b
    then updateBookingStatus now2 st id
           {| u_status := Some "cancelled"%string;
              u_notes := Some (default "Cancelled by user"%string reason) |}
    else (st, Err NotCancellable).
Proof.
  intros Hb. unfold cancelBooking. rewrite Hb. now destruct (canBeCancelled now1 b).
Qed.

(** The store after each operation: the store before, or the one
    change the operation makes. *)
Lemma update_store now st id u :
  (updateBookingStatus now st id u).1 = st
  \/ exists b t n,
       bookings st !! id = Some b /\ t ∈ allowed (status b)
       /\ updateBookingStatus now st id u
          = ({| vehicles := vehicles st;
                bookings := <[id := applyUpdate now b t n]> (bookings st) |},
             Ok (mkPopulated id (applyUpdate now b t n) (vehicles st !! vehicleId b))).
Proof.
  destruct (bookings st !! id) as [b|] eqn:Hb.
  - destruct (updateBookingStatus_cases now st id u b Hb)
      as [[_ E] | [(_ & _ & _ & E) | [(_ & _ & E) | (t & n & _ & Hin & _ & E)]]];
      try (left; now rewrite E).
    right. exists b, t, n. auto.
  - left. unfold updateBookingStatus. now rewrite Hb.
Qed.

Lemma cancel_store now1 now2 st id reason :
  (cancelBooking now1 now2 st id reason).1 = st
  \/ exists b t n,
       bookings st !! id = Some b /\ t ∈ allowed (status b)
       /\ cancelBooking now1 now2 st id reason
          = ({| vehicles := vehicles st;
                bookings := <[id := applyUpdate now2 b t n]> (bookings st) |},
             Ok (mkPopulated id (applyUpdate now2 b t n) (vehicles st !! vehicleId b))).
Proof.
  destruct (bookings st !! id) as [b|] eqn:Hb.
  - rewrite (cancelBooking_unfold _ _ _ _ _ _ Hb).
    destruct (canBeCancelled now1 b); [|now left].
    destruct (update_store now2 st id
                {| u_status := Some "cancelled"%string;
                   u_notes := Some (default "Cancelled by user"%string reason) |})
      as [E | (b0 & t & n & Hb0 & Ht & E)]; [now left|].
    right. exists b0, t, n. split; [congruence|auto].
  - left. unfold cancelBooking. now rewrite Hb.
Qed.

Lemma delete_store now st id :
  (deleteBooking now st id).1 = st
  \/ (deleteBooking now st id).1
     = {| vehicles := vehicles st; bookings := delete id (bookings st) |}.
Proof.
  unfold deleteBooking. destruct (bookings st !! id) as [b|]; [|now left].
  destruct (negb _); [now left|now right].
Qed.

Lemma deactivate_store now st vid :
  (deleteVehicle now st vid).1 = st
  \/ exists v, vehicles st !! vid = Some v
       /\ (deleteVehicle now st vid).1
          = {| vehicles := <[vid := deactivate v]> (vehicles st);
               bookings := bookings st |}.
Proof.
  unfold deleteVehicle. destruct (vehicles st !! vid) as [v|] eqn:Hv; [|now left].
  destruct (0 <? _)%nat; [now left|]. right. exists v. auto.
Qed.

Section Preservation.

Variable Inv : Store -> Prop.

Hypothesis Inv_create : forall st now id data vehicle dur e doc,
  Inv st -> loadVehicle st data = Ok vehicle -> resolveWindow data = Ok (dur, e) ->
  checkOverlap st data e = Ok tt ->
  saveValidate now (newBooking data e dur) = Ok doc ->
  bookings st !! id = None ->
  Inv {| vehicles := vehicles st; bookings := <[id := doc]> (bookings st) |}.

Hypothesis Inv_update : forall st now id b t n,
  Inv st -> bookings st !! id = Some b -> t ∈ allowed (status b) ->
  Inv {| vehicles := vehicles st;
         bookings := <[id := applyUpdate now b t n]> (bookings st) |}.

Hypothesis Inv_delete : forall st id,
  Inv st -> Inv {| vehicles := vehicles st; bookings := delete id (bookings st) |}.

Hypothesis Inv_deactivate : forall st vid v,
  Inv st -> vehicles st !! vid = Some v ->
  Inv {| vehicles := <[vid := deactivate v]> (vehicles st); bookings := bookings st |}.

Lemma exec_preserves st op : Inv st -> Inv (exec st op).
Proof.
  intros H. destruct op as [now id data | now id u | n1 n2 id reason | now id | now vid];
    simpl.
  - destruct (createBooking_cases now id st data)
      as [(e & ->) | (vehicle & dur & e & doc & L & W & C & V & N & ->)];
      [exact H|]. simpl. eapply Inv_create; eauto.
  - destruct (update_store now st id u) as [-> | (b & t & n & Hb & Ht & ->)];
      [exact H|]. simpl. now apply Inv_update.
  - destruct (cancel_store n1 n2 st id reason) as [-> | (b & t & n & Hb & Ht & ->)];
      [exact H|]. simpl. now apply Inv_update.
  - destruct (delete_store now st id) as [-> | ->]; [exact H|]. now apply Inv_delete.
  - destruct (deactivate_store now st vid) as [-> | (v & Hv & ->)]; [exact H|].
    now apply Inv_deactivate.
Qed.

Lemma execAll_preserves ops : forall st, Inv st -> Inv (execAll st ops).
Proof.
  induction ops as [|op ops IH]; intros st H; [exact H|].
  apply IH. now apply exec_preserves.
Qed.

End Preservation.

Lemma applyUpdate_fields now b t n :
  vehicleId (applyUpdate now b t n) = vehicleId b
  /\ startTime (applyUpdate now b t n) = startTime b
  /\ endTime (applyUpdate now b t n) = endTime b
  /\ status (applyUpdate now b t n) = t.
Proof. repeat split. Qed.

Lemma allowed_not_terminal s t : t ∈ allowed s -> s ∉ terminal.
Proof.
  unfold terminal. rewrite !elem_of_cons, elem_of_nil.
  intros Hin [E|[E|[]]]; rewrite E in Hin; simpl in Hin; now apply elem_of_nil in Hin.
Qed.

Lemma no_double_booking_update coll now id b t n :
  no_double_booking terminal coll -> coll !! id = Some b -> t ∈ allowed (status b) ->
  no_double_booking terminal (<[id := applyUpdate now b t n]> coll).
Proof.
  intros Hinv Hb Ht i j b1 b2 Hij H1 H2 Hv Hs1 Hs2 Hov.
  pose proof (allowed_not_terminal _ _ Ht) as Hlive.
  rewrite lookup_insert in H1, H2.
  destruct (decide (id = i)) as [Hi|Hi]; destruct (decide (id = j)) as [Hj|Hj];
    simplify_eq.
  - exact (Hinv i j b b2 Hij Hb H2 Hv Hlive Hs2 Hov).
  - exact (Hinv i j b1 b Hij H1 Hb Hv Hs1 Hlive Hov).
  - exact (Hinv i j b1 b2 Hij H1 H2 Hv Hs1 Hs2 Hov).
Qed.

Lemma no_double_booking_delete coll id :
  no_double_booking terminal coll -> no_double_booking terminal (delete id coll).
Proof.
  intros Hinv i j b1 b2 Hij H1 H2.
  apply lookup_delete_Some in H1 as [_ H1]. apply lookup_delete_Some in H2 as [_ H2].
  now apply (Hinv i j).
Qed.

(** Whatever sequence of creations, status updates, cancellations,
    deletions and vehicle deactivations is run on a store in which no
    two live bookings of a vehicle overlap, none do afterwards. *)
Theorem no_double_booking_always ops st :
  no_double_booking terminal (bookings st) ->
  no_double_booking terminal (bookings (execAll st ops)).
Proof.
  apply (execAll_preserves (fun s => no_double_booking terminal (bookings s))).
  - intros s now id data vehicle dur e doc Hinv _ _ Hc Hd Hn. simpl.
    apply no_double_booking_insert; [exact Hinv|exact Hn|].
    intros k b Hkb Hb.
    destruct (saveValidate_fields _ _ _ _ _ Hd) as (F1 & F2 & F3 & _).
    rewrite F1, F2, F3 in Hb.
    assert (Hconf : checkOverlap s data e = Err BookingConflict)
      by (apply checkOverlap_conflict; eauto).
    congruence.
  - intros s now id b t n Hinv Hb Ht. simpl. now apply no_double_booking_update.
  - intros s id Hinv. simpl. now apply no_double_booking_delete.
  - intros s vid v Hinv _. exact Hinv.
Qed.

(** Two bookings of the truck are asked for the same window, the first
    is started; the store still holds no double booking, and holds the
    first booking. *)
Lemma no_double_booking_always_witness :
  let ops := [Create 0 11 (Scenario.request 1 (2 * Scenario.hour) None None);
              Create 0 12 (Scenario.request 1 (2 * Scenario.hour) None None);
              Update Scenario.hour 11
                {| u_status := Some "in_progress"%string; u_notes := None |}] in
  no_double_booking terminal (bookings (execAll Scenario.emptyStore ops))
  /\ (status <$> bookings (execAll Scenario.emptyStore ops) !! 11%positive)
     = Some in_progress
  /\ bookings (execAll Scenario.emptyStore ops) !! 12%positive = None.
Proof.
  split; [|split; vm_compute; reflexivity].
  apply (no_double_booking_always _ Scenario.emptyStore).
  intros i j b1 b2 _ H1. simpl in H1. rewrite lookup_empty in H1. discriminate H1.
Defined.

(** Every booking of a store reached by the operations ends after it
    starts, carries six-digit codes and a duration between 0.1 and 168
    hours, and names a vehicle of the catalog, when that holds of the
    store at the outset. *)
Theorem bookings_stay_well_formed ops st :
  all_well_formed st /\ references_ok st ->
  all_well_formed (execAll st ops) /\ references_ok (execAll st ops).
Proof.
  apply (execAll_preserves (fun s => all_well_formed s /\ references_ok s)).
  - intros s now id data vehicle dur e doc [Hwf Href] Hl _ _ Hd Hn.
    destruct (saveValidate_fields _ _ _ _ _ Hd) as (F1 & _).
    unfold saveValidate in Hd.
    destruct (schema_valid now (newBooking data e dur)) eqn:E; [|discriminate Hd].
    injection Hd as <-.
    destruct (schema_valid_well_formed _ _ E) as [W Hn'].
    unfold loadVehicle in Hl.
    destruct (vehicles s !! d_vehicleId data) as [v|] eqn:Hv; [|discriminate Hl].
    split; intros k b Hk; simpl in Hk; rewrite lookup_insert in Hk;
      destruct (decide (id = k)) as [->|Hne].
    + injection Hk as <-. now rewrite Hn'.
    + now apply (Hwf k).
    + injection Hk as <-. simpl. rewrite Hv. eauto.
    + now apply (Href k).
  - intros s now id b t n [Hwf Href] Hb Ht.
    split; intros k b' Hk; simpl in Hk; rewrite lookup_insert in Hk;
      destruct (decide (id = k)) as [->|Hne].
    + injection Hk as <-. exact (Hwf k b Hb).
    + now apply (Hwf k).
    + injection Hk as <-. exact (Href k b Hb).
    + now apply (Href k).
  - intros s id [Hwf Href].
    split; intros k b Hk; simpl in Hk; apply lookup_delete_Some in Hk as [_ Hk].
    + now apply (Hwf k).
    + now apply (Href k).
  - intros s vid v [Hwf Href] Hv. split; [exact Hwf|].
    intros k b Hk. simpl in *. specialize (Href k b Hk).
    rewrite lookup_insert. destruct (decide (vid = vehicleId b)); eauto.
Qed.

(** A booking of the truck is created and the truck then deactivated:
    the booking is well formed and still names the truck. *)
Lemma bookings_stay_well_formed_witness :
  let ops := [Create 0 11 (Scenario.request 1 (2 * Scenario.hour) None None);
              Cancel 0 0 11 None; Deactivate 0 1] in
  (all_well_formed (execAll Scenario.emptyStore ops)
   /\ references_ok (execAll Scenario.emptyStore ops))
  /\ (isActive <$> vehicles (execAll Scenario.emptyStore ops) !! 1%positive) = Some false
  /\ (status <$> bookings (execAll Scenario.emptyStore ops) !! 11%positive)
     = Some cancelled.
Proof.
  split; [|split; vm_compute; reflexivity].
  apply (bookings_stay_well_formed _ Scenario.emptyStore).
  split; intros k b H; simpl in H; rewrite lookup_empty in H; discriminate H.
Defined.

Lemma applyUpdate_stamped now b t n :
  stamped b -> t ∈ allowed (status b) -> stamped (applyUpdate now b t n).
Proof.
  intros [Hs He] Ht. unfold stamped. simpl.
  destruct (status b) eqn:Es; simpl in Ht;
    rewrite ?elem_of_cons, ?elem_of_nil in Ht;
    repeat (destruct Ht as [Ht|Ht]); try contradiction; subst t; simpl;
    split; try (intros [H|H]; discriminate H); try (intros H; discriminate H);
    intros _; destruct (actualStartTime b), (actualEndTime b); eauto;
    try (destruct Hs as [? Hs]; [auto|discriminate Hs]).
Qed.

(** In every store reached by the operations, a booking in progress or
    completed has its actual start recorded and a completed one its
    actual end, when that holds at the outset. *)
Theorem actual_times_recorded ops st :
  all_stamped st -> all_stamped (execAll st ops).
Proof.
  apply (execAll_preserves all_stamped).
  - intros s now id data vehicle dur e doc Hinv _ _ _ Hd _ k b Hk.
    simpl in Hk. rewrite lookup_insert in Hk.
    destruct (decide (id = k)) as [->|Hne]; [|now apply (Hinv k)].
    injection Hk as <-.
    destruct (saveValidate_fields _ _ _ _ _ Hd) as (_ & _ & _ & _ & F5).
    unfold stamped. rewrite F5. split; [intros [H|H]|intros H]; discriminate H.
  - intros s now id b t n Hinv Hb Ht k b' Hk.
    simpl in Hk. rewrite lookup_insert in Hk.
    destruct (decide (id = k)) as [->|Hne]; [|now apply (Hinv k)].
    injection Hk as <-. apply applyUpdate_stamped; [exact (Hinv k b Hb)|exact Ht].
  - intros s id Hinv k b Hk. simpl in Hk.
    apply lookup_delete_Some in Hk as [_ Hk]. now apply (Hinv k).
  - intros s vid v Hinv _. exact Hinv.
Qed.

(** A booking is created, started at T+2h and completed at T+3h: both
    actual times are recorded. *)
Lemma actual_times_recorded_witness :
  let ops := [Create 0 11 (Scenario.request 1 (2 * Scenario.hour) None None);
              Update (2 * Scenario.hour) 11
                {| u_status := Some "in_progress"%string; u_notes := None |};
              Update (3 * Scenario.hour) 11
                {| u_status := Some "completed"%string; u_notes := None |}] in
  all_stamped (execAll Scenario.emptyStore ops)
  /\ (actualStartTime <$> bookings (execAll Scenario.emptyStore ops) !! 11%positive)
     = Some (Some (2 * Scenario.hour))
  /\ (actualEndTime <$> bookings (execAll Scenario.emptyStore ops) !! 11%positive)
     = Some (Some (3 * Scenario.hour)).
Proof.
  split; [|split; vm_compute; reflexivity].
  apply (actual_times_recorded _ Scenario.emptyStore).
  intros k b H. simpl in H. rewrite lookup_empty in H. discriminate H.
Defined.

End Lifecycle.

(** ** Deleting, cancelling and the end of the life of a booking *)

Section Endings.
Import JS Model Errors BookingService BookingServiceMore VehicleService
  VehicleServiceMore Session Spec.

(** [deleteBooking] succeeds exactly on a booking that exists and is
    completed or cancelled; on any other existing booking it fails with
    [NotDeletable]. A success removes that booking and nothing else; a
    failure leaves the store as it was. *)
Theorem deleteBooking_only_terminal now st id :
  let r := deleteBooking now st id in
  (is_ok r.2 = true
   <-> exists b, bookings st !! id = Some b /\ status b ∈ terminal)
  /\ (forall b, bookings st !! id = Some b -> status b ∉ terminal ->
      r = (st, Err NotDeletable))
  /\ (bookings st !! id = None -> r = (st, Err (Known BookingNotFound)))
  /\ (is_ok r.2 = true ->
      bookings r.1 !! id = None /\ vehicles r.1 = vehicles st
      /\ forall j, j <> id -> bookings r.1 !! j = bookings st !! j)
  /\ (is_ok r.2 = false -> r.1 = st).
Proof.
  cbv zeta. unfold deleteBooking.
  destruct (bookings st !! id) as [b|] eqn:Hb.
  - assert (Hterm : bool_decide (status b = completed) || bool_decide (status b = cancelled) = true
                    <-> status b ∈ terminal).
    { unfold terminal. rewrite orb_true_iff, !bool_decide_eq_true,
        !elem_of_cons, elem_of_nil. tauto. }
    destruct (bool_decide (status b = completed) || bool_decide (status b = cancelled)) eqn:E;
      simpl.
    + split.
      { split; [|intros _; reflexivity].
        intros _. exists b. split; [reflexivity|now apply Hterm]. }
      split.
      { intros b' [= <-] Hn. exfalso. apply Hn. now apply Hterm. }
      split; [discriminate|]. split; [|discriminate].
      intros _. split; [apply lookup_delete_eq|]. split; [reflexivity|].
      intros j Hj. now apply lookup_delete_ne.
    + split.
      { split; [discriminate|].
        intros (b' & [= <-] & Hin). apply Hterm in Hin. discriminate Hin. }
      split; [intros; reflexivity|]. split; [discriminate|].
      split; [discriminate|intros; reflexivity].
  - simpl. split.
    { split; [discriminate|]. intros (b & H & _). discriminate H. }
    split; [discriminate|]. split; [intros; reflexivity|].
    split; [discriminate|intros; reflexivity].
Qed.

(** Creating a booking, cancelling it and deleting it gives back the
    store there was before: the three operations leave no trace. *)
Theorem create_cancel_delete_roundtrip now id st data st1 p n1 n2 reason st2 q n3 :
  createBooking now id st data = (st1, Ok p) ->
  cancelBooking n1 n2 st1 id reason = (st2, Ok q) ->
  deleteBooking n3 st2 id = (st, Ok (mkDeleted id cancelled n3)).
Proof.
  intros Hc Hx.
  destruct (createBooking_cases now id st data)
    as [(e & E) | (vehicle & dur & w & doc & _ & _ & _ & Hd & Hn & E)];
    rewrite E in Hc; [discriminate Hc|].
  injection Hc as <- _.
  destruct (saveValidate_fields _ _ _ _ _ Hd) as (_ & _ & _ & _ & F5).
  set (st1 := {| vehicles := vehicles st; bookings := <[id := doc]> (bookings st) |}) in *.
  assert (Hb : bookings st1 !! id = Some doc) by (simpl; apply lookup_insert_eq).
  rewrite (cancelBooking_unfold _ _ _ _ _ _ Hb) in Hx.
  destruct (canBeCancelled n1 doc); [|discriminate Hx].
  destruct (updateBookingStatus_cases n2 st1 id
              {| u_status := Some "cancelled"%string;
                 u_notes := Some (default "Cancelled by user"%string reason) |} doc Hb)
    as [[_ E2] | [(_ & _ & _ & E2) | [(_ & _ & E2) | (t & n & Ht & _ & _ & E2)]]];
    rewrite E2 in Hx; try discriminate Hx.
  assert (t = cancelled) as ->.
  { cbn [u_status] in Ht.
    apply (f_equal (fun o => o ≫= status_of_string)) in Ht.
    cbn [mbind option_bind] in Ht. rewrite status_of_string_name in Ht.
    now injection Ht as <-. }
  injection Hx as <- _.
  unfold deleteBooking. simpl. rewrite lookup_insert_eq. simpl.
  f_equal. rewrite delete_insert_eq, delete_insert_eq, delete_id by exact Hn.
  now destruct st.
Qed.

(** The truck is booked for T+2h at T, cancelled at once and the
    booking deleted. *)
Lemma create_cancel_delete_roundtrip_witness :
  exists st1 st2,
    (createBooking 0 11 Scenario.emptyStore
       (Scenario.request 1 (2 * Scenario.hour) None None)).1 = st1
    /\ (cancelBooking 0 0 st1 11 None).1 = st2
    /\ deleteBooking 5 st2 11 = (Scenario.emptyStore, Ok (mkDeleted 11 cancelled 5)).
Proof.
  eexists. eexists. split; [reflexivity|]. split; [reflexivity|].
  eapply (create_cancel_delete_roundtrip 0 11%positive Scenario.emptyStore
            (Scenario.request 1 (2 * Scenario.hour) None None) _ _ 0 0 None _ _ 5).
  - vm_compute. reflexivity.
  - vm_compute. reflexivity.
Defined.

Lemma allowed_rank s t : t ∈ allowed s -> (rank s < rank t)%nat.
Proof.
  destruct s; simpl; rewrite ?elem_of_cons, ?elem_of_nil; intros H;
    repeat (destruct H as [H|H]); try contradiction; subst t; simpl; lia.
Qed.

Lemma rank_le_3 s : (rank s <= 3)%nat.
Proof. destruct s; simpl; lia. Qed.

(** However often [updateBookingStatus] is called on a booking, at most
    three of the calls succeed, and fewer the further along the booking
    already is: each success moves the status strictly forward, from
    pending to confirmed to in progress to completed or cancelled. *)
Theorem status_changes_are_bounded calls : forall st id b,
  bookings st !! id = Some b ->
  ((updateAll st id calls).2 + rank (status b) <= 3)%nat.
Proof.
  induction calls as [|[now u] calls IH]; intros st id b Hb.
  - simpl. apply rank_le_3.
  - cbn [updateAll].
    destruct (updateBookingStatus_cases now st id u b Hb)
      as [[_ E2] | [(_ & _ & _ & E2) | [(_ & _ & E2) | (t & m & _ & Ht & _ & E2)]]];
      rewrite E2; cbn [fst snd is_ok].
    1-3: specialize (IH st id b Hb);
         destruct (updateAll st id calls) as [st' n]; exact IH.
    match goal with
    | |- context [updateAll ?s id calls] =>
        specialize (IH s id (applyUpdate now b t m))
    end.
    cbn [bookings] in IH. rewrite lookup_insert_eq in IH. specialize (IH eq_refl).
    match goal with
    | |- context [updateAll ?s id calls] => destruct (updateAll s id calls) as [st' n]
    end.
    cbn [snd] in IH |- *. apply allowed_rank in Ht.
    change (status (applyUpdate now b t m)) with t in IH. lia.
Qed.

(** Five requests on the confirmed trip: start, complete, then three
    more. Two succeed. *)
Lemma status_changes_are_bounded_witness :
  let calls :=
    [(0, {| u_status := Some "in_progress"%string; u_notes := None |});
     (1, {| u_status := Some "completed"%string; u_notes := None |});
     (2, {| u_status := Some "cancelled"%string; u_notes := None |});
     (3, {| u_status := Some "in_progress"%string; u_notes := None |});
     (4, {| u_status := Some "completed"%string; u_notes := None |})] in
  ((updateAll (Scenario.storeWith confirmed) 10%positive calls).2
   + rank confirmed <= 3)%nat.
Proof.
  apply (status_changes_are_bounded _ (Scenario.storeWith confirmed) 10%positive
           (Scenario.trip confirmed)).
  reflexivity.
Defined.

Lemma overlap_query_terminal vid s e ex k b :
  status b ∈ terminal -> overlap_query vid s e ex (k, b) = false.
Proof.
  unfold terminal. rewrite !elem_of_cons, elem_of_nil. unfold overlap_query.
  intros [E|[E|[]]]; rewrite E; simpl; now rewrite ?andb_false_r.
Qed.

Lemma overlap_query_applyUpdate vid s e ex k now b t n :
  t ∉ terminal -> status b ∉ terminal ->
  overlap_query vid s e ex (k, applyUpdate now b t n) = overlap_query vid s e ex (k, b).
Proof.
  unfold terminal. rewrite !elem_of_cons, !elem_of_nil. intros Ht Hb.
  unfold overlap_query. simpl.
  replace (bool_decide (t = cancelled) || bool_decide (t = completed)) with false.
  2:{ symmetry. apply orb_false_iff. rewrite !bool_decide_eq_false. tauto. }
  replace (bool_decide (status b = cancelled) || bool_decide (status b = completed)) with false.
  2:{ symmetry. apply orb_false_iff. rewrite !bool_decide_eq_false. tauto. }
  reflexivity.
Qed.

(** A booking that is cancelled or completed frees its slot: after a
    successful [cancelBooking], or a successful [updateBookingStatus]
    into a terminal status, every conflict query finds what it found
    before except that booking; a status change that is not terminal
    changes no answer but the status in it. *)
Theorem terminal_status_frees_slot :
  (forall now st id u st' p,
     updateBookingStatus now st id u = (st', Ok p) ->
     status (p_doc p) ∈ terminal ->
     forall vid s e ex k b,
       (k, b) ∈ findOverlappingBookings (bookings st') vid s e ex
       <-> k <> id /\ (k, b) ∈ findOverlappingBookings (bookings st) vid s e ex)
  /\ (forall now1 now2 st id reason st' p,
       cancelBooking now1 now2 st id reason = (st', Ok p) ->
       forall vid s e ex k b,
         (k, b) ∈ findOverlappingBookings (bookings st') vid s e ex
         <-> k <> id /\ (k, b) ∈ findOverlappingBookings (bookings st) vid s e ex)
  /\ (forall now st id u st' p,
       updateBookingStatus now st id u = (st', Ok p) ->
       status (p_doc p) ∉ terminal ->
       forall vid s e ex k,
         (exists b, (k, b) ∈ findOverlappingBookings (bookings st') vid s e ex)
         <-> (exists b, (k, b) ∈ findOverlappingBookings (bookings st) vid s e ex)).
Proof.
  assert (Hfree : forall now st id b t n,
            bookings st !! id = Some b -> t ∈ allowed (status b) -> t ∈ terminal ->
            forall vid s e ex k b',
              (k, b') ∈ findOverlappingBookings
                          (<[id := applyUpdate now b t n]> (bookings st)) vid s e ex
              <-> k <> id /\ (k, b') ∈ findOverlappingBookings (bookings st) vid s e ex).
  { intros now st id b t n Hb Ht Hterm vid s e ex k b'.
    rewrite !elem_findOverlappingBookings, lookup_insert.
    destruct (decide (id = k)) as [->|Hne].
    - split; [|intros [H _]; contradiction].
      intros [[= <-] Hq].
      rewrite overlap_query_terminal in Hq by exact Hterm. discriminate Hq.
    - split; [intros [H1 H2]; split; [congruence|auto]|intros [_ H]; exact H]. }
  split; [|split].
  - intros now st id u st' p H Hterm.
    destruct (update_store now st id u) as [E | (b & t & n & Hb & Ht & E)].
    + exfalso. destruct (bookings st !! id) as [b|] eqn:Hb.
      * destruct (updateBookingStatus_cases now st id u b Hb)
          as [[_ E2] | [(_ & _ & _ & E2) | [(_ & _ & E2) | (t & n & _ & Ht & _ & E2)]]];
          rewrite E2 in H; try discriminate H.
        injection H as <- <-. simpl in Hterm.
        apply allowed_not_terminal in Ht.
        rewrite E2 in E. simpl in E.
        apply (f_equal (fun s => status <$> bookings s !! id)) in E. simpl in E.
        rewrite lookup_insert_eq, Hb in E. simpl in E. injection E as E.
        rewrite E in Hterm. contradiction.
      * unfold updateBookingStatus in H. rewrite Hb in H. discriminate H.
    + rewrite E in H. injection H as <- <-. simpl in Hterm |- *.
      now apply Hfree.
  - intros now1 now2 st id reason st' p H.
    destruct (bookings st !! id) as [b|] eqn:Hb;
      [|unfold cancelBooking in H; rewrite Hb in H; discriminate H].
    rewrite (cancelBooking_unfold _ _ _ _ _ _ Hb) in H.
    destruct (canBeCancelled now1 b); [|discriminate H].
    destruct (updateBookingStatus_cases now2 st id
                {| u_status := Some "cancelled"%string;
                   u_notes := Some (default "Cancelled by user"%string reason) |} b Hb)
      as [[_ E2] | [(_ & _ & _ & E2) | [(_ & _ & E2) | (t & n & Hst & Ht & _ & E2)]]];
      rewrite E2 in H; try discriminate H.
    assert (t = cancelled) as ->.
    { cbn [u_status] in Hst.
      apply (f_equal (fun o => o ≫= status_of_string)) in Hst.
      cbn [mbind option_bind] in Hst. rewrite status_of_string_name in Hst.
      now injection Hst as <-. }
    injection H as <- _. simpl. apply Hfree; [exact Hb|exact Ht|].
    unfold terminal. rewrite !elem_of_cons. auto.
  - intros now st id u st' p H Hlive vid s e ex k.
    destruct (update_store now st id u) as [E | (b & t & n & Hb & Ht & E)].
    + rewrite (surjective_pairing (updateBookingStatus now st id u)) in H.
      injection H as H _. rewrite E in H. now subst st'.
    + rewrite E in H. injection H as <- <-. simpl in Hlive |- *.
      pose proof (allowed_not_terminal _ _ Ht) as Hb'.
      split; intros [b' Hin]; apply elem_findOverlappingBookings in Hin as [Hl Hq];
        rewrite ?lookup_insert in Hl; destruct (decide (id = k)) as [->|Hne].
      * injection Hl as <-. rewrite overlap_query_applyUpdate in Hq by assumption.
        exists b. apply elem_findOverlappingBookings. auto.
      * exists b'. apply elem_findOverlappingBookings. auto.
      * rewrite Hb in Hl. injection Hl as <-.
        exists (applyUpdate now b t n). apply elem_findOverlappingBookings.
        rewrite lookup_insert_eq. split; [reflexivity|].
        now rewrite overlap_query_applyUpdate.
      * exists b'. apply elem_findOverlappingBookings.
        rewrite lookup_insert_ne by exact Hne. auto.
Qed.

(** The confirmed trip is cancelled at T: its window is free again. *)
Lemma terminal_status_frees_slot_witness :
  exists st',
    (cancelBooking 0 0 (Scenario.storeWith confirmed) 10 None).1 = st'
    /\ (forall b, (10%positive, b) ∈ findOverlappingBookings (bookings st') 1
                     (2 * Scenario.hour) (4 * Scenario.hour) None
          <-> 10%positive <> 10%positive
              /\ (10%positive, b) ∈ findOverlappingBookings
                    (bookings (Scenario.storeWith confirmed)) 1
                    (2 * Scenario.hour) (4 * Scenario.hour) None).
Proof.
  eexists. split; [reflexivity|]. intros b.
  destruct terminal_status_frees_slot as (_ & Hcancel & _).
  eapply (Hcancel 0 0 (Scenario.storeWith confirmed) 10%positive None).
  vm_compute. reflexivity.
Defined.

End Endings.

Section Fleet.
Import JS Model Errors BookingService BookingServiceMore VehicleService.
Import VehicleServiceMore Session Spec.

Lemma activeBookingQuery_spec now vid k b :
  activeBookingQuery now vid (k, b) = true
  <-> vehicleId b = vid /\ (status b ∉ terminal) /\ endTime b > now.
Proof.
  unfold activeBookingQuery, terminal. cbn [snd].
  rewrite !andb_true_iff, bool_decide_eq_true, !elem_of_cons, elem_of_nil, Z.gtb_gt.
  destruct (status b); simpl; intuition (try discriminate; try lia).
Qed.

Lemma active_count now st vid :
  (0 <? length (map_to_list (filter (fun kb => activeBookingQuery now vid kb = true)
                               (bookings st))))%nat = true
  <-> has_active_booking now st vid.
Proof.
  unfold has_active_booking.
  destruct (map_to_list _) as [|[k b] l] eqn:E; simpl; split.
  - discriminate.
  - intros (k & b & Hb & Hq). exfalso.
    assert (Hin : (k, b) ∈ map_to_list
                    (filter (fun kb => activeBookingQuery now vid kb = true) (bookings st))).
    { apply elem_of_map_to_list, map_lookup_filter_Some. split; [exact Hb|].
      exact (proj2 (activeBookingQuery_spec _ _ _ _) Hq). }
    rewrite E in Hin. now apply elem_of_nil in Hin.
  - intros _. exists k, b.
    assert (Hin : (k, b) ∈ map_to_list
                    (filter (fun kb => activeBookingQuery now vid kb = true) (bookings st)))
      by (rewrite E; left).
    apply elem_of_map_to_list, map_lookup_filter_Some in Hin as [Hb Hq].
    split; [exact Hb|]. exact (proj1 (activeBookingQuery_spec _ _ _ _) Hq).
  - reflexivity.
Qed.

(** [deleteVehicle] has three outcomes. An unknown vehicle is not
    found. A vehicle with a booking that is neither cancelled nor
    completed and ends after now is refused, and the store stays as it
    was. Any other vehicle is switched off, which is all that changes;
    in particular a booking whose end has passed does not protect its
    vehicle, whatever its status. *)
Theorem deleteVehicle_outcomes now st vid :
  match vehicles st !! vid with
  | None => deleteVehicle now st vid = (st, Err (Known VehicleNotFound))
  | Some v =>
      (has_active_booking now st vid
       /\ deleteVehicle now st vid = (st, Err HasActiveBookings))
      \/ (~ has_active_booking now st vid
          /\ deleteVehicle now st vid
             = ({| vehicles := <[vid := deactivate v]> (vehicles st);
                   bookings := bookings st |}, Ok tt))
  end.
Proof.
  unfold deleteVehicle. destruct (vehicles st !! vid) as [v|]; [|reflexivity].
  pose proof (active_count now st vid) as H.
  destruct (0 <? _)%nat.
  - left. split; [now apply H|reflexivity].
  - right. split; [|reflexivity]. intros Hb. apply H in Hb. discriminate Hb.
Qed.

(** Once [deleteVehicle] has succeeded the vehicle is out of service:
    every [createBooking] for it fails with the inactive-vehicle error
    and leaves the store alone, and no search lists it. The bookings
    and the other vehicles are as before, and the vehicle itself is
    still in the catalog with every field but [isActive]. *)
Theorem deleted_vehicle_is_out_of_service now st vid st' :
  deleteVehicle now st vid = (st', Ok tt) ->
  bookings st' = bookings st
  /\ (forall k, k <> vid -> vehicles st' !! k = vehicles st !! k)
  /\ (exists v, vehicles st !! vid = Some v
               /\ vehicles st' !! vid = Some (deactivate v))
  /\ (forall now' newId data, d_vehicleId data = vid ->
        createBooking now' newId st' data = (st', Err VehicleInactive))
  /\ (forall p r, findAvailableVehicles st' p = Ok r ->
        forall av, av ∈ availableVehicles r -> a_id av <> vid).
Proof.
  intros H. unfold deleteVehicle in H.
  destruct (vehicles st !! vid) as [v|] eqn:Hv; [|discriminate H].
  destruct (0 <? _)%nat; [discriminate H|]. injection H as <-.
  cbn [bookings vehicles].
  split; [reflexivity|].
  split; [intros k Hk; now rewrite lookup_insert_ne|].
  split; [exists v; split; [reflexivity|now rewrite lookup_insert_eq]|].
  split.
  - intros now' newId data Hd. unfold createBooking, loadVehicle.
    cbn [vehicles]. rewrite Hd, lookup_insert_eq. reflexivity.
  - intros p r Hr av Hav Hid.
    destruct (findAvailableVehicles_Ok _ p r Hr) as (dur & e & _ & _ & _ & _ & E).
    rewrite E in Hav. apply elem_available in Hav as ([k v'] & Hin & Hkv).
    apply availability_Some in Hkv as (_ & Hk & _). cbn [fst] in Hk.
    apply suitableVehicles_spec in Hin as (Hl & _ & Hact & _).
    cbn [vehicles] in Hl. rewrite <- Hk, Hid, lookup_insert_eq in Hl.
    injection Hl as <-. discriminate Hact.
Qed.

(** The truck has no booking: it is deleted, and can then not be
    booked. *)
Lemma deleted_vehicle_is_out_of_service_witness :
  exists st',
    deleteVehicle 0 Scenario.emptyStore 1 = (st', Ok tt)
    /\ bookings st' = bookings Scenario.emptyStore
    /\ createBooking 0 11 st' (Scenario.request 1 (2 * Scenario.hour) None None)
       = (st', Err VehicleInactive).
Proof.
  eexists. split; [vm_compute; reflexivity|].
  edestruct (deleted_vehicle_is_out_of_service 0 Scenario.emptyStore 1%positive)
    as (Hb & _ & _ & Hc & _); [vm_compute; reflexivity|].
  split; [exact Hb|]. apply Hc. reflexivity.
Defined.

End Fleet.

Section Schedules.
Import JS Model Errors BookingService Spec.

Lemma step_store now st c :
  c_newId (step now st c).2 = c_newId c
  /\ ((step now st c).1 = st
      \/ exists doc,
           bookings st !! c_newId c = None
           /\ (step now st c).1
              = {| vehicles := vehicles st;
                   bookings := <[c_newId c := doc]> (bookings st) |}).
Proof.
  unfold step. destruct (c_phase c) as [| | | |doc| |]; cbn [fst snd goto c_newId];
    try (split; [reflexivity|left; reflexivity]).
  unfold insertDoc. destruct (bookings st !! c_newId c) eqn:E; cbn [fst snd c_newId].
  - split; [reflexivity|left; reflexivity].
  - split; [reflexivity|]. right. exists doc. auto.
Qed.

Lemma step_call_store now i st calls :
  (c_newId <$> (step_call now i (st, calls)).2) = (c_newId <$> calls)
  /\ ((step_call now i (st, calls)).1 = st
      \/ exists k doc,
           k ∈ (c_newId <$> calls) /\ bookings st !! k = None
           /\ (step_call now i (st, calls)).1
              = {| vehicles := vehicles st; bookings := <[k := doc]> (bookings st) |}).
Proof.
  unfold step_call. cbn [fst snd].
  destruct (calls !! i) as [c|] eqn:Hc; [|split; [reflexivity|left; reflexivity]].
  destruct (step_store now st c) as [Hid Hst].
  destruct (step now st c) as [st' c']. cbn [fst snd] in *.
  split.
  - rewrite list_fmap_insert, Hid. apply list_insert_id.
    now rewrite list_lookup_fmap, Hc.
  - destruct Hst as [->|(doc & Hn & ->)]; [now left|]. right.
    exists (c_newId c), doc. split; [|auto].
    apply list_elem_of_fmap_2. now apply list_elem_of_lookup_2 with i.
Qed.

(** However the calls of [createBooking] in flight are interleaved,
    they only ever add to the store: the catalog of vehicles is
    untouched, every booking that was there is still there unchanged,
    and a booking that is new carries the id that one of the calls
    drew. The calls keep their ids. *)
Theorem interleaved_creates_only_add now schedule : forall st calls,
  vehicles (run now schedule (st, calls)).1 = vehicles st
  /\ bookings st ⊆ bookings (run now schedule (st, calls)).1
  /\ (forall k, is_Some (bookings (run now schedule (st, calls)).1 !! k) ->
       is_Some (bookings st !! k) \/ k ∈ (c_newId <$> calls))
  /\ (c_newId <$> (run now schedule (st, calls)).2) = (c_newId <$> calls).
Proof.
  induction schedule as [|i schedule IH]; intros st calls.
  - cbn. split; [reflexivity|]. split; [reflexivity|]. split; [now left|reflexivity].
  - change (run now (i :: schedule) (st, calls))
      with (run now schedule (step_call now i (st, calls))).
    destruct (step_call_store now i st calls) as [Hids Hst].
    destruct (step_call now i (st, calls)) as [st1 calls1]. cbn [fst snd] in *.
    destruct (IH st1 calls1) as (Hv & Hsub & Hnew & Hc).
    rewrite Hids in Hnew, Hc.
    destruct Hst as [->|(k & doc & Hk & Hn & ->)]; [auto|].
    cbn [vehicles bookings] in *.
    split; [exact Hv|]. split; [|split; [|exact Hc]].
    + etransitivity; [|exact Hsub]. now apply insert_subseteq.
    + intros k' Hk'. destruct (Hnew k' Hk') as [Hold|Hin]; [|now right].
      destruct (decide (k = k')) as [<-|Hne]; [now right|].
      left. now rewrite lookup_insert_ne in Hold.
Qed.

End Schedules.

Section Listings.
Import JS Model Errors BookingService BookingServiceMore VehicleService Spec.

Lemma earlier_trans : Transitive earlier.
Proof. intros a b c. unfold earlier. lia. Qed.

Lemma sort_byStartTime l : StronglySorted earlier (sort byStartTime l).
Proof.
  apply Sorted_StronglySorted; [exact earlier_trans|].
  exact (sort_key_Sorted (fun kb : ObjectId * Booking => startTime kb.2) l).
Qed.

Lemma window_StronglySorted {A} (R : relation A) (l : list A) n m :
  StronglySorted R l -> StronglySorted R (take n (drop m l)).
Proof.
  intros H. rewrite <- (take_drop m l) in H. apply StronglySorted_app_1_r in H.
  rewrite <- (take_drop n (drop m l)) in H. now apply StronglySorted_app_1_l in H.
Qed.

Lemma StronglySorted_map {A B} (f : A -> B) (R : relation B) l :
  StronglySorted (fun a b => R (f a) (f b)) l -> StronglySorted R (List.map f l).
Proof.
  induction 1 as [|x l Hl IH Hall]; simpl; constructor; [exact IH|].
  rewrite map_is_fmap, Forall_fmap. exact Hall.
Qed.

Lemma elem_window {A} (l : list A) n m x : x ∈ take n (drop m l) -> x ∈ l.
Proof.
  intros H. eapply elem_of_sublist; [exact H|].
  etransitivity; [apply sublist_take|apply sublist_drop].
Qed.

Lemma vehicleBookingsQuery_spec vid o k b :
  vehicleBookingsQuery vid o (k, b) = true
  <-> vehicleId b = vid
      /\ (forall s, o_status o = Some s -> s <> EmptyString -> status_name (status b) = s)
      /\ (forall d, o_fromDate o = Some d -> d <= startTime b)
      /\ (forall d, o_toDate o = Some d -> startTime b <= d).
Proof.
  unfold vehicleBookingsQuery. cbn [snd].
  rewrite !andb_true_iff, bool_decide_eq_true.
  split.
  - intros [[[Hv Hs] Hf] Ht]. split; [exact Hv|]. split; [|split].
    + intros s E Hne. rewrite E in Hs. destruct s; [contradiction|].
      now apply String.eqb_eq in Hs.
    + intros d E. rewrite E in Hf. apply Z.geb_le in Hf. lia.
    + intros d E. rewrite E in Ht. now apply Z.leb_le in Ht.
  - intros (Hv & Hs & Hf & Ht). repeat split.
    + exact Hv.
    + destruct (o_status o) as [[|c s]|]; [reflexivity| |reflexivity].
      apply String.eqb_eq. now apply Hs.
    + destruct (o_fromDate o) as [d|]; [|reflexivity].
      apply Z.geb_le. specialize (Hf d eq_refl). lia.
    + destruct (o_toDate o) as [d|]; [|reflexivity].
      apply Z.leb_le. now apply Hf || now apply Ht.
Qed.

Lemma ceilDiv_spec total limit :
  0 <= total -> 0 < limit ->
  total <= ceilDiv total limit * limit < total + limit.
Proof.
  intros Ht Hl. unfold ceilDiv.
  pose proof (Z.div_mod (total + limit - 1) limit ltac:(lia)) as E.
  pose proof (Z.mod_pos_bound (total + limit - 1) limit Hl) as B.
  nia.
Qed.

(** A page of [getVehicleBookings] holds bookings of the store that
    are of the vehicle and pass the filters that were given, in the
    order of their start times, none twice, and no more than the limit.
    The pagination block counts the pages exactly: they are the fewest
    that hold all the matching bookings, every page before the last is
    full, and a page is empty exactly when it lies beyond the last. *)
Theorem vehicle_bookings_page st vid o :
  (forall k b, (k, b) ∈ (getVehicleBookings st vid o).1 ->
     bookings st !! k = Some b /\ vehicleId b = vid
     /\ (forall s, o_status o = Some s -> s <> EmptyString -> status_name (status b) = s)
     /\ (forall d, o_fromDate o = Some d -> d <= startTime b)
     /\ (forall d, o_toDate o = Some d -> startTime b <= d))
  /\ StronglySorted earlier (getVehicleBookings st vid o).1
  /\ NoDup ((getVehicleBookings st vid o).1.*1)
  /\ (length (getVehicleBookings st vid o).1 <= Pos.to_nat (o_limit o))%nat
  /\ (totalItems (getVehicleBookings st vid o).2
        <= totalPages (getVehicleBookings st vid o).2 * Z.pos (o_limit o)
        < totalItems (getVehicleBookings st vid o).2 + Z.pos (o_limit o))
  /\ (Z.pos (o_page o) < totalPages (getVehicleBookings st vid o).2 ->
       length (getVehicleBookings st vid o).1 = Pos.to_nat (o_limit o))
  /\ ((getVehicleBookings st vid o).1 = []
        <-> totalPages (getVehicleBookings st vid o).2 < Z.pos (o_page o)).
Proof.
  unfold getVehicleBookings. cbv zeta. cbn [fst snd totalItems totalPages].
  set (matching := map_to_list (filter _ (bookings st))).
  set (L := Pos.to_nat (o_limit o)). set (P := Pos.to_nat (o_page o)).
  assert (HL : Z.pos (o_limit o) = Z.of_nat L) by (symmetry; apply positive_nat_Z).
  assert (HP : Z.pos (o_page o) = Z.of_nat P) by (symmetry; apply positive_nat_Z).
  assert (HL0 : (0 < L)%nat) by apply Pos2Nat.is_pos.
  assert (HP0 : (0 < P)%nat) by apply Pos2Nat.is_pos.
  assert (Hlen : length (sort byStartTime matching) = length matching)
    by (apply Permutation_length, sort_perm).
  pose proof (ceilDiv_spec (Z.of_nat (length matching)) (Z.of_nat L)
                ltac:(lia) ltac:(lia)) as Hceil.
  rewrite HL, HP.
  assert (Hpage : length (take L (drop ((P - 1) * L) (sort byStartTime matching)))
                  = (L `min` (length matching - (P - 1) * L))%nat)
    by now rewrite length_take, length_drop, Hlen.
  split; [|split; [|split; [|split; [|split; [|split]]]]].
  - intros k b Hin. apply elem_window in Hin. rewrite sort_perm in Hin.
    apply elem_of_map_to_list, map_lookup_filter_Some in Hin as [Hb Hq].
    split; [exact Hb|]. now apply vehicleBookingsQuery_spec in Hq.
  - apply window_StronglySorted, sort_byStartTime.
  - eapply sublist_NoDup; [|apply fmap_sublist;
      etransitivity; [apply sublist_take|apply sublist_drop]].
    rewrite sort_perm. apply NoDup_fst_map_to_list.
  - rewrite Hpage. lia.
  - exact Hceil.
  - intros Hlt. rewrite Hpage. nia.
  - rewrite <- length_zero_iff_nil, Hpage. split; intros H; nia.
Qed.

Lemma upcomingQuery_spec now k b :
  upcomingQuery now (k, b) = true
  <-> now <= startTime b <= now + 86400000
      /\ (status b = confirmed \/ status b = pending).
Proof.
  unfold upcomingQuery. cbv zeta. cbn [snd].
  change (24 * 60 * 60 * 1000) with 86400000.
  rewrite !andb_true_iff, orb_true_iff, !bool_decide_eq_true, Z.leb_le.
  split.
  - intros [[H1 H2] H3]. apply Z.geb_le in H1. auto with zarith.
  - intros [[H1 H2] H3]. split; [split; [apply Z.geb_le; lia|exact H2]|exact H3].
Qed.

(** [getUpcomingBookings] returns pending and confirmed bookings of the
    store that start within the next 24 hours, each with its vehicle,
    in the order of their start times and no more than the limit; and
    they are the earliest: a booking of that kind that is left out
    starts no earlier than any that is returned. *)
Theorem upcoming_bookings_are_the_earliest now st limit :
  (forall p, p ∈ getUpcomingBookings now st limit ->
     bookings st !! p_id p = Some (p_doc p)
     /\ now <= startTime (p_doc p) <= now + 86400000
     /\ (status (p_doc p) = confirmed \/ status (p_doc p) = pending)
     /\ p_vehicle p = vehicles st !! vehicleId (p_doc p))
  /\ StronglySorted (fun a b => startTime (p_doc a) <= startTime (p_doc b))
       (getUpcomingBookings now st limit)
  /\ (length (getUpcomingBookings now st limit) <= Pos.to_nat limit)%nat
  /\ (forall k b,
       bookings st !! k = Some b ->
       now <= startTime b <= now + 86400000 ->
       status b = confirmed \/ status b = pending ->
       (exists p, p ∈ getUpcomingBookings now st limit /\ p_id p = k /\ p_doc p = b)
       \/ (length (getUpcomingBookings now st limit) = Pos.to_nat limit
           /\ forall p, p ∈ getUpcomingBookings now st limit ->
                startTime (p_doc p) <= startTime b)).
Proof.
  unfold getUpcomingBookings.
  set (l := sort byStartTime (map_to_list (filter _ (bookings st)))).
  set (n := Pos.to_nat limit).
  set (pop := fun kb : ObjectId * Booking =>
                mkPopulated kb.1 kb.2 (vehicles st !! vehicleId kb.2)).
  assert (Hl : forall k b, (k, b) ∈ l
                 <-> bookings st !! k = Some b /\ upcomingQuery now (k, b) = true).
  { intros k b. unfold l. rewrite sort_perm, elem_of_map_to_list.
    apply map_lookup_filter_Some. }
  assert (Hs : StronglySorted earlier l) by apply sort_byStartTime.
  assert (Hmem : forall p, p ∈ List.map pop (take n l)
                   <-> exists kb, kb ∈ take n l /\ p = pop kb).
  { intros p. rewrite map_is_fmap, list_elem_of_fmap. split; intros (kb & H1 & H2); eauto. }
  split; [|split; [|split]].
  - intros p Hp. apply Hmem in Hp as ([k b] & Hin & ->). cbn [pop p_id p_doc p_vehicle fst snd].
    apply (elem_window l n 0) in Hin. apply Hl in Hin as [Hb Hq].
    apply upcomingQuery_spec in Hq as [Hw Hst]. auto.
  - apply StronglySorted_map.
    exact (window_StronglySorted earlier l n 0 Hs).
  - rewrite length_map, length_take. lia.
  - intros k b Hb Hw Hst.
    assert (Hin : (k, b) ∈ l).
    { apply Hl. split; [exact Hb|]. now apply upcomingQuery_spec. }
    rewrite <- (take_drop n l) in Hin, Hs. apply elem_of_app in Hin as [Hin|Hin].
    + left. exists (pop (k, b)). split; [|split; reflexivity].
      apply Hmem. eauto.
    + right. split.
      * rewrite length_map, length_take.
        destruct (decide (n <= length l)%nat) as [Hle|Hgt]; [lia|].
        rewrite drop_ge in Hin by lia. now apply elem_of_nil in Hin.
      * intros p Hp. apply Hmem in Hp as (kb & Hkb & ->).
        exact (StronglySorted_app_1_elem_of earlier _ _ _ _ Hs Hkb Hin).
Qed.

End Listings.
